(** * Lightning-qubit state vector: operation dispatch and measurement

    A shallow embedding of [StateVectorLQubit] (the bridge class between the
    agnostic state-vector base and the storage classes) and of
    [PauliGenerator].

    Conventions of the embedding:
    - [PrecisionT] is idealised as a real number; [std::complex<PrecisionT>]
      is a pair of reals with the usual product and [std::norm].  Rounding
      and overflow are outside the model: the statements about values give
      the sums and products the code computes, in its order, and no
      statement relies on a rescaled value being exact.
    - [size_t] indices and sizes are natural numbers.  The source computes
      [num_qubits_ - (1 + wire)] in [size_t]; for [wire >= num_qubits_] that
      expression wraps around and the loops leave the buffer, which is
      undefined behaviour; the embedding is meant for [wire < num_qubits_].
    - An array read [arr[i]] is [nth i arr Czero] and an array write is
      [<[i:=v]> arr]; both agree with the source for [i] inside the buffer,
      which is the only case the source defines.
    - A member function is a computation over the object: it receives the
      object and returns either a value or the exception that was thrown,
      together with the object as the call left it.
    - The dynamic dispatcher, the kernels behind it, the random engine and
      [numeric_limits] belong to other translation units; they are
      interfaces (type classes) here. *)

From Stdlib Require Import Reals Lra Lia ZArith String.
From stdpp Require Import base list.

(** ** Complex amplitudes *)

Record ComplexT : Type := mkComplex { real : R; imag : R }.

Definition Czero : ComplexT := mkComplex 0 0.
Definition Cone : ComplexT := mkComplex 1 0.

(** [std::norm]: the squared magnitude. *)
Definition Cnorm (z : ComplexT) : R :=
  (real z * real z + imag z * imag z)%R.

(** [operator*=] on [std::complex]. *)
Definition Cmult (a b : ComplexT) : ComplexT :=
  mkComplex (real a * real b - imag a * imag b)
            (real a * imag b + imag a * real b).

(** The amplitude buffer behind [getData()]. *)
Abbreviation Buffer := (list ComplexT).

(** ** Exceptions *)

Inductive Exception : Type :=
| LightningException (message : string)  (* thrown by PL_ABORT *)
| out_of_range.                          (* thrown by unordered_map::at *)

Definition msg_controlled_size : string :=
  "`controlled_wires` must have the same size as `controlled_values`.".
Definition msg_wires_empty : string :=
  "Number of wires must be larger than 0".
Definition msg_matrix_size : string :=
  "The size of matrix does not match with the given number of wires".
Definition msg_single_wire : string :=
  "MidMeasureMP should have a single wire.".
Definition msg_one_postselect : string :=
  "MidMeasureMP accepts at most one postselect value.".

(** ** Operation identifiers *)

(** The enumerators this unit names. *)
Inductive MatrixOperation : Type :=
  SingleQubitOp | TwoQubitOp | MultiQubitOp.
Inductive ControlledMatrixOperation : Type :=
  NCSingleQubitOp | NCTwoQubitOp | NCMultiQubitOp.

(** The enumerations this unit only passes around; their enumerators are
    declared in GateOperation.hpp, KernelType.hpp, Threading.hpp and
    CPUMemoryModel.hpp. *)
Class Operations : Type := {
  Threading : Type;
  CPUMemoryModel : Type;
  KernelType : Type;
  GateOperation : Type;
  GeneratorOperation : Type;
  ControlledGateOperation : Type;
  ControlledGeneratorOperation : Type
}.

(** ** Collaborators *)

(** What a call into the dispatcher leaves behind: the value or the
    exception, and the buffer as the kernel left it. *)
Definition Outcome (A : Type) : Type := ((Exception + A) * Buffer)%type.

(** [DynamicDispatcher<PrecisionT>]: the member functions this unit calls.
    The argument order is the one of the source; the buffer argument stands
    for the pointer [arr] the kernel mutates in place. *)
Module DynamicDispatcher.
Class t `{Operations} : Type := {
  hasGateOp : string -> bool;
  strToGateOp : string -> Exception + GateOperation;
  strToControlledGateOp : string -> Exception + ControlledGateOperation;
  strToGeneratorOp : string -> Exception + GeneratorOperation;
  strToControlledGeneratorOp :
    string -> Exception + ControlledGeneratorOperation;
  applyOperationByName :
    KernelType -> Buffer -> nat -> string -> list nat -> bool -> list R ->
    Outcome unit;
  applyOperation :
    KernelType -> Buffer -> nat -> GateOperation -> list nat -> bool ->
    list R -> Outcome unit;
  applyControlledGate :
    KernelType -> Buffer -> nat -> string -> list nat -> list bool ->
    list nat -> bool -> list R -> Outcome unit;
  applyGenerator :
    KernelType -> Buffer -> nat -> string -> list nat -> bool -> Outcome R;
  applyControlledGenerator :
    KernelType -> Buffer -> nat -> string -> list nat -> list bool ->
    list nat -> bool -> Outcome R;
  applyMatrix :
    KernelType -> Buffer -> nat -> list ComplexT -> list nat -> bool ->
    Outcome unit;
  applyControlledMatrix :
    KernelType -> Buffer -> nat -> list ComplexT -> list nat ->
    list bool -> list nat -> bool -> Outcome unit
}.
End DynamicDispatcher.


(** [std::mt19937_64] with [std::discrete_distribution<int>] over two
    weights.  The distribution returns an index below the number of weights,
    hence a boolean: [false] is index 0 and [true] is index 1. *)
Class RandomEngine : Type := {
  mt19937_64 : Type;
  mt_seed : N -> mt19937_64;
  discrete_distribution : R -> R -> mt19937_64 -> bool * mt19937_64
}.

(** [std::numeric_limits<PrecisionT>::epsilon()]. *)
Class NumericLimits : Type := { epsilon : R }.

Definition epsilon_double : R := (/ 2 ^ 52)%R.
Definition epsilon_float : R := (/ 2 ^ 23)%R.

(** Modelled from the spec: [Pennylane::Util::exp2], which lives in the
    utility header; the spec gives the matrix side as two to the number of
    wires. *)
Definition exp2 (n : nat) : nat := 2 ^ n.

(** Modelled from the spec: [Pennylane::Util::squaredNorm], which lives in
    the utility header; the sum of the squared magnitudes of the first [len]
    amplitudes. *)
Definition squaredNorm (arr : Buffer) (len : nat) : R :=
  fold_left (fun acc z => (acc + Cnorm z)%R) (take len arr) 0%R.

(** A counted loop [for (i = 0; i < n; i++) body]. *)
Definition for_loop {S : Type} (n : nat) (body : nat -> S -> S) (s : S) : S :=
  fold_left (fun acc i => body i acc) (seq 0 n) s.

(** ** The state-vector object *)

Section StateVector.
Context `{Ops : Operations} `{!DynamicDispatcher.t}
        `{Rng : RandomEngine} `{Lim : NumericLimits}.

Record StateVectorLQubit : Type := mkStateVector {
  num_qubits_ : nat;
  data : Buffer;
  threading_ : Threading;
  memory_model_ : CPUMemoryModel;
  rng : mt19937_64;
  kernel_for_gates_ : GateOperation -> option KernelType;
  kernel_for_generators_ : GeneratorOperation -> option KernelType;
  kernel_for_matrices_ : MatrixOperation -> option KernelType;
  kernel_for_controlled_gates_ :
    ControlledGateOperation -> option KernelType;
  kernel_for_controlled_generators_ :
    ControlledGeneratorOperation -> option KernelType;
  kernel_for_controlled_matrices_ :
    ControlledMatrixOperation -> option KernelType
}.

Definition set_data (arr : Buffer) (sv : StateVectorLQubit) :=
  mkStateVector (num_qubits_ sv) arr (threading_ sv) (memory_model_ sv)
    (rng sv)
    (kernel_for_gates_ sv) (kernel_for_generators_ sv)
    (kernel_for_matrices_ sv) (kernel_for_controlled_gates_ sv)
    (kernel_for_controlled_generators_ sv)
    (kernel_for_controlled_matrices_ sv).

Definition set_rng (g : mt19937_64) (sv : StateVectorLQubit) :=
  mkStateVector (num_qubits_ sv) (data sv) (threading_ sv)
    (memory_model_ sv) g
    (kernel_for_gates_ sv) (kernel_for_generators_ sv)
    (kernel_for_matrices_ sv) (kernel_for_controlled_gates_ sv)
    (kernel_for_controlled_generators_ sv)
    (kernel_for_controlled_matrices_ sv).

(** *** Member functions as computations *)

Definition M (A : Type) : Type :=
  StateVectorLQubit -> (Exception + A) * StateVectorLQubit.

Definition ret {A} (a : A) : M A := fun sv => (inr a, sv).

Definition throw {A} (e : Exception) : M A := fun sv => (inl e, sv).

Definition bind {A B} (m : M A) (k : A -> M B) : M B :=
  fun sv =>
    match m sv with
    | (inl e, sv') => (inl e, sv')
    | (inr a, sv') => k a sv'
    end.

Definition PL_ABORT_IF (cond : bool) (message : string) : M unit :=
  if cond then throw (LightningException message) else ret tt.

Definition PL_ABORT_IF_NOT (cond : bool) (message : string) : M unit :=
  PL_ABORT_IF (negb cond) message.

(** A lookup in the dispatcher's name tables. *)
Definition lookup_op {A} (r : Exception + A) : M A :=
  match r with inl e => throw e | inr a => ret a end.

(** [std::unordered_map::at]. *)
Definition at_ {K V} (m : K -> option V) (k : K) : M V :=
  match m k with Some v => ret v | None => throw out_of_range end.

(** A call into the dispatcher on [getData()] and [getNumQubits()]. *)
Definition dispatch {A} (call : Buffer -> nat -> Outcome A) : M A :=
  fun sv =>
    let '(r, arr) := call (data sv) (num_qubits_ sv) in
    (r, set_data arr sv).

Definition getData : M Buffer := fun sv => (inr (data sv), sv).
Definition getLength : M nat := fun sv => (inr (length (data sv)), sv).
Definition getNumQubits : M nat := fun sv => (inr (num_qubits_ sv), sv).
Definition putData (arr : Buffer) : M unit :=
  fun sv => (inr tt, set_data arr sv).

(** [memoryModel()] and [threading()] *)
Definition memoryModel : M CPUMemoryModel :=
  fun sv => (inr (memory_model_ sv), sv).
Definition threading : M Threading := fun sv => (inr (threading_ sv), sv).
End StateVector.

Declare Scope sv_scope.
Delimit Scope sv_scope with sv.
Notation "x <- c1 ;; c2" := (bind c1 (fun x => c2))
  (at level 100, c1 at next level, right associativity) : sv_scope.
Notation "c1 ;; c2" := (bind c1 (fun _ => c2))
  (at level 100, right associativity) : sv_scope.


(** ** Operation application *)

Section Apply.
Context `{Ops : Operations} `{Disp : !DynamicDispatcher.t}
        `{Rng : RandomEngine} `{Lim : NumericLimits}.
Local Open Scope sv_scope.

Definition getKernelForGate (gate_op : GateOperation) : M KernelType :=
  fun sv => at_ (kernel_for_gates_ sv) gate_op sv.

Definition getKernelForControlledGate (gate_op : ControlledGateOperation)
  : M KernelType :=
  fun sv => at_ (kernel_for_controlled_gates_ sv) gate_op sv.

Definition getKernelForGenerator (gen_op : GeneratorOperation)
  : M KernelType :=
  fun sv => at_ (kernel_for_generators_ sv) gen_op sv.

Definition getKernelForControlledGenerator
  (gen_op : ControlledGeneratorOperation) : M KernelType :=
  fun sv => at_ (kernel_for_controlled_generators_ sv) gen_op sv.

Definition getKernelForMatrix (mat_op : MatrixOperation) : M KernelType :=
  fun sv => at_ (kernel_for_matrices_ sv) mat_op sv.

Definition getKernelForControlledMatrix (mat_op : ControlledMatrixOperation)
  : M KernelType :=
  fun sv => at_ (kernel_for_controlled_matrices_ sv) mat_op sv.

(** Modelled from the spec: [setBasisState], which this class declares pure
    virtual and the storage classes implement; it zeroes the buffer and sets
    the amplitude at [index] to one. *)
Definition setBasisState (index : nat) : M unit :=
  fun sv =>
    (inr tt,
     set_data (<[index := Cone]> (replicate (length (data sv)) Czero)) sv).

(** [applyOperation(kernel, opName, wires, inverse, params)] *)
Definition applyOperation_kernel (kernel : KernelType) (opName : string)
  (wires : list nat) (inverse : bool) (params : list R) : M unit :=
  dispatch (fun arr nq =>
    DynamicDispatcher.applyOperationByName kernel arr nq opName wires inverse
      params).

(** [applyOperation(opName, wires, inverse, params)] *)
Definition applyOperation (opName : string) (wires : list nat)
  (inverse : bool) (params : list R) : M unit :=
  gate_op <- lookup_op (DynamicDispatcher.strToGateOp opName) ;;
  kernel <- getKernelForGate gate_op ;;
  dispatch (fun arr nq =>
    DynamicDispatcher.applyOperation kernel arr nq gate_op wires inverse
      params).

(** [applyOperation(opName, controlled_wires, controlled_values, wires,
    inverse, params)] *)
Definition applyOperation_controlled (opName : string)
  (controlled_wires : list nat) (controlled_values : list bool)
  (wires : list nat) (inverse : bool) (params : list R) : M unit :=
  PL_ABORT_IF_NOT (length controlled_wires =? length controlled_values)
    msg_controlled_size ;;
  gate_op <- lookup_op (DynamicDispatcher.strToControlledGateOp opName) ;;
  kernel <- getKernelForControlledGate gate_op ;;
  dispatch (fun arr nq =>
    DynamicDispatcher.applyControlledGate kernel arr nq opName
      controlled_wires controlled_values wires inverse params).

(** [applyMatrix(kernel, const ComplexT *matrix, wires, inverse)]; the
    pointer is the memory it points to. *)
Definition applyMatrix_kernel_ptr (kernel : KernelType)
  (matrix : list ComplexT) (wires : list nat) (inverse : bool) : M unit :=
  PL_ABORT_IF (length wires =? 0) msg_wires_empty ;;
  dispatch (fun arr nq =>
    DynamicDispatcher.applyMatrix kernel arr nq matrix wires inverse).

(** [applyMatrix(kernel, const std::vector<ComplexT> &matrix, wires,
    inverse)] *)
Definition applyMatrix_kernel (kernel : KernelType) (matrix : list ComplexT)
  (wires : list nat) (inverse : bool) : M unit :=
  PL_ABORT_IF (negb (length matrix =? exp2 (2 * length wires)))
    msg_matrix_size ;;
  applyMatrix_kernel_ptr kernel matrix wires inverse.

(** [applyMatrix(const ComplexT *matrix, wires, inverse)] *)
Definition applyMatrix_ptr (matrix : list ComplexT) (wires : list nat)
  (inverse : bool) : M unit :=
  PL_ABORT_IF (length wires =? 0) msg_wires_empty ;;
  kernel <- match length wires with
            | 1 => getKernelForMatrix SingleQubitOp
            | 2 => getKernelForMatrix TwoQubitOp
            | _ => getKernelForMatrix MultiQubitOp
            end ;;
  applyMatrix_kernel_ptr kernel matrix wires inverse.

(** [applyMatrix(const std::vector<ComplexT, Alloc> &matrix, wires,
    inverse)] *)
Definition applyMatrix (matrix : list ComplexT) (wires : list nat)
  (inverse : bool) : M unit :=
  PL_ABORT_IF (negb (length matrix =? exp2 (2 * length wires)))
    msg_matrix_size ;;
  applyMatrix_ptr matrix wires inverse.

(** [applyControlledMatrix(const ComplexT *matrix, controlled_wires,
    controlled_values, wires, inverse)] *)
Definition applyControlledMatrix_ptr (matrix : list ComplexT)
  (controlled_wires : list nat) (controlled_values : list bool)
  (wires : list nat) (inverse : bool) : M unit :=
  PL_ABORT_IF (length wires =? 0) msg_wires_empty ;;
  PL_ABORT_IF_NOT (length controlled_wires =? length controlled_values)
    msg_controlled_size ;;
  kernel <- match length wires with
            | 1 => getKernelForControlledMatrix NCSingleQubitOp
            | 2 => getKernelForControlledMatrix NCTwoQubitOp
            | _ => getKernelForControlledMatrix NCMultiQubitOp
            end ;;
  dispatch (fun arr nq =>
    DynamicDispatcher.applyControlledMatrix kernel arr nq matrix
      controlled_wires controlled_values wires inverse).

(** [applyControlledMatrix(const std::vector<ComplexT> matrix,
    controlled_wires, controlled_values, wires, inverse)] *)
Definition applyControlledMatrix (matrix : list ComplexT)
  (controlled_wires : list nat) (controlled_values : list bool)
  (wires : list nat) (inverse : bool) : M unit :=
  applyControlledMatrix_ptr matrix controlled_wires controlled_values wires
    inverse.

(** [applyOperation(opName, wires, inverse, params, matrix)] *)
Definition applyOperation_matrix (opName : string) (wires : list nat)
  (inverse : bool) (params : list R) (matrix : list ComplexT) : M unit :=
  if DynamicDispatcher.hasGateOp opName
  then applyOperation opName wires inverse params
  else applyMatrix matrix wires inverse.

(** [applyOperation(opName, controlled_wires, controlled_values, wires,
    inverse, params, matrix)] *)
Definition applyOperation_controlled_matrix (opName : string)
  (controlled_wires : list nat) (controlled_values : list bool)
  (wires : list nat) (inverse : bool) (params : list R)
  (matrix : list ComplexT) : M unit :=
  PL_ABORT_IF_NOT (length controlled_wires =? length controlled_values)
    msg_controlled_size ;;
  if negb (length controlled_wires =? 0)
  then applyOperation_controlled opName controlled_wires controlled_values
         wires inverse params
  else if DynamicDispatcher.hasGateOp opName
       then applyOperation opName wires inverse params
       else applyMatrix matrix wires inverse.

(** [applyGenerator(kernel, opName, wires, adj)] *)
Definition applyGenerator_kernel (kernel : KernelType) (opName : string)
  (wires : list nat) (adj : bool) : M R :=
  dispatch (fun arr nq =>
    DynamicDispatcher.applyGenerator kernel arr nq opName wires adj).

(** [applyGenerator(opName, wires, adj)] *)
Definition applyGenerator (opName : string) (wires : list nat) (adj : bool)
  : M R :=
  gen_op <- lookup_op (DynamicDispatcher.strToGeneratorOp opName) ;;
  kernel <- getKernelForGenerator gen_op ;;
  dispatch (fun arr nq =>
    DynamicDispatcher.applyGenerator kernel arr nq opName wires adj).

(** [applyGenerator(opName, controlled_wires, controlled_values, wires,
    adj)] *)
Definition applyGenerator_controlled (opName : string)
  (controlled_wires : list nat) (controlled_values : list bool)
  (wires : list nat) (adj : bool) : M R :=
  generator_op <-
    lookup_op (DynamicDispatcher.strToControlledGeneratorOp opName) ;;
  kernel <- getKernelForControlledGenerator generator_op ;;
  dispatch (fun arr nq =>
    DynamicDispatcher.applyControlledGenerator kernel arr nq opName
      controlled_wires controlled_values wires adj).

(** ** Measurement *)

(** [seed(seed)] *)
Definition seed (value : N) : M unit :=
  fun sv => (inr tt, set_rng (mt_seed value) sv).

(** [random_sample(prob_0)] *)
Definition random_sample (prob_0 : R) : M Z :=
  fun sv =>
    let '(index, g) :=
      discrete_distribution prob_0 (1 - prob_0)%R (rng sv) in
    (inr (Z.b2z index), set_rng g sv).

(** [probs(wire)] *)
Definition probs (wire : nat) : M (list R) :=
  fun sv =>
    let arr := data sv in
    let stride := 2 ^ (num_qubits_ sv - (1 + wire)) in
    let vec_size := 2 ^ num_qubits_ sv in
    let section_size := vec_size / stride in
    let half_section_size := section_size / 2 in
    let prob_0 :=
      for_loop half_section_size (fun idx prob_0 =>
        let offset := stride * 2 * idx in
        for_loop stride (fun ids prob_0 =>
          (prob_0 + Cnorm (nth (offset + ids) arr Czero))%R) prob_0) 0%R in
    (inr [prob_0; (1 - prob_0)%R], sv).

(** [normalize()] *)
Definition normalize : M unit :=
  fun sv =>
    let arr := data sv in
    let norm := sqrt (squaredNorm arr (length arr)) in
    if Rgt_dec norm (epsilon * 100)
    then
      let inv_norm := mkComplex (1 / norm) 0 in
      (inr tt,
       set_data (for_loop (length arr) (fun k arr =>
                   <[k := Cmult (nth k arr Czero) inv_norm]> arr) arr) sv)
    else (inr tt, sv).

(** [collapse(wire, branch)] *)
Definition collapse (wire : nat) (branch : bool) : M unit :=
  fun sv =>
    let arr := data sv in
    let stride := 2 ^ (num_qubits_ sv - (1 + wire)) in
    let vec_size := 2 ^ num_qubits_ sv in
    let section_size := vec_size / stride in
    let half_section_size := section_size / 2 in
    let k := if branch then 0 else 1 in
    let arr' :=
      for_loop half_section_size (fun idx arr =>
        let offset := stride * (k + 2 * idx) in
        for_loop stride (fun ids arr =>
          <[offset + ids := Czero]> arr) arr) arr in
    normalize (set_data arr' sv).

(** [measure(wire, postselect, reset)]; the sample is converted to [bool]
    for [collapse] as C++ converts an [int]. *)
Definition measure (wire : nat) (postselect : Z) (reset : bool) : M Z :=
  probs_ <- probs wire ;;
  sample <- random_sample (nth 0 probs_ 0%R) ;;
  if negb (postselect =? -1)%Z && negb (postselect =? sample)%Z
  then
    setBasisState 0 ;;
    (arr <- getData ;; putData (<[0 := Czero]> arr)) ;;
    ret (-1)%Z
  else
    collapse wire (negb (sample =? 0)%Z) ;;
    (if reset && (sample =? 1)%Z
     then applyOperation "PauliX" [wire] false []
     else ret tt) ;;
    ret sample.

(** Conversion of a [size_t] to [int]. *)
Definition size_t_to_int (z : Z) : Z :=
  ((z + 2 ^ 31) mod 2 ^ 32 - 2 ^ 31)%Z.

(** [applyMidMeasureMP(wires, postselect, reset)] *)
Definition applyMidMeasureMP (wires : list nat) (postselect : list nat)
  (reset : bool) : M Z :=
  PL_ABORT_IF_NOT (length wires =? 1) msg_single_wire ;;
  PL_ABORT_IF (1 <? length postselect) msg_one_postselect ;;
  let ps : Z := match postselect with
                | [] => (2 ^ 64 - 1)%Z
                | p :: _ => Z.of_nat p
                end in
  measure (nth 0 wires 0) (size_t_to_int ps) reset.

(** The probability [measure] hands to [random_sample], and the draw
    [random_sample] makes with it. *)
Definition prob_0_of (wire : nat) (sv : StateVectorLQubit) : R :=
  match fst (probs wire sv) with
  | inr probs_ => nth 0 probs_ 0%R
  | inl _ => 0%R
  end.

Definition draw_of (wire : nat) (sv : StateVectorLQubit)
  : bool * mt19937_64 :=
  discrete_distribution (prob_0_of wire sv) (1 - prob_0_of wire sv)%R
    (rng sv).


(** [measure] called [count] times in a row on one wire; the samples in
    the order drawn.  An exception ends the run. *)
Fixpoint measure_repeatedly (count : nat) (wire : nat) (postselect : Z)
  (reset : bool) : M (list Z) :=
  match count with
  | 0 => ret []
  | S count' =>
      sample <- measure wire postselect reset ;;
      samples <- measure_repeatedly count' wire postselect reset ;;
      ret (sample :: samples)
  end.

End Apply.

(** ** Generators of RX, RY and RZ *)

(** The [GateImplementation] template parameter of [PauliGenerator]: the
    Pauli kernels it calls. *)
Class GateImplementation : Type := {
  applyPauliX : Buffer -> nat -> list nat -> bool -> Outcome unit;
  applyPauliY : Buffer -> nat -> list nat -> bool -> Outcome unit;
  applyPauliZ : Buffer -> nat -> list nat -> bool -> Outcome unit
}.

Module PauliGenerator.
Section Generators.
Context `{Impl : GateImplementation}.

(** The scalar a generator returns once its Pauli kernel has returned. *)
Definition returning (coefficient : R) (o : Outcome unit) : Outcome R :=
  let '(r, data) := o in
  (match r with inl e => inl e | inr _ => inr coefficient end, data).

Definition applyGeneratorRX (data : Buffer) (num_qubits : nat)
  (wires : list nat) (adj : bool) : Outcome R :=
  returning (- 0.5)%R (applyPauliX data num_qubits wires adj).

Definition applyGeneratorRY (data : Buffer) (num_qubits : nat)
  (wires : list nat) (adj : bool) : Outcome R :=
  returning (- 0.5)%R (applyPauliY data num_qubits wires adj).

Definition applyGeneratorRZ (data : Buffer) (num_qubits : nat)
  (wires : list nat) (adj : bool) : Outcome R :=
  returning (- 0.5)%R (applyPauliZ data num_qubits wires adj).

End Generators.
End PauliGenerator.

(** ** Vocabulary of the statements *)

(** The bit of [index] that belongs to [wire]: the indices fall into blocks
    of [2 ^ (num_qubits - 1 - wire)] consecutive indices (the stride),
    labelled 0 and 1 in turn, and the bit is the label of the block. *)
Definition wire_bit (num_qubits wire index : nat) : bool :=
  Nat.odd (index / 2 ^ (num_qubits - 1 - wire)).

(** The sum of the squared magnitudes of the amplitudes whose index
    satisfies [select], in the order of the indices. *)
Definition weight (select : nat -> bool) (arr : Buffer) : R :=
  fold_left (fun acc i => (acc + Cnorm (nth i arr Czero))%R)
            (filter (fun i => select i = true) (seq 0 (length arr))) 0%R.

(** The controlled-matrix operation for a number of target wires: the
    sizing rule of the [switch] in [applyControlledMatrix]. *)
Definition sized_controlled_matrix_op (n_wires : nat)
  : ControlledMatrixOperation :=
  match n_wires with
  | 1 => NCSingleQubitOp
  | 2 => NCTwoQubitOp
  | _ => NCMultiQubitOp
  end.

(** The computational basis state of [len] amplitudes at [index]. *)
Definition basis_state (len index : nat) : Buffer :=
  <[index := Cone]> (replicate len Czero).


(** What [collapse] leaves at an index before rescaling. *)
Definition keep_branch (num_qubits wire : nat) (branch : bool) (arr : Buffer)
  : Buffer :=
  imap (fun i z => if Bool.eqb (wire_bit num_qubits wire i) branch
                   then z else Czero) arr.

(** Multiplication of every amplitude by a real factor, as [normalize]
    does it. *)
Definition rescale (factor : R) (arr : Buffer) : Buffer :=
  map (fun z => Cmult z (mkComplex factor 0)) arr.

(** ** Stand-ins for the collaborators

    The statements below hold for every dispatcher, random engine and
    epsilon.  To run the entry points on concrete inputs the collaborators
    have to be something: this module provides small ones.  They are not the
    dispatcher and kernels of the repository: one name per family
    ([PauliX], [RX]), single-target kernels only, and a random engine that
    reads uniform variates from a tape and inverts the cumulative
    distribution.  The stand-in dispatcher keeps the contract the spec gives
    the dispatcher: an unknown name ends in the lookup, and a controlled
    call with control lists of different sizes is rejected before the
    buffer is touched. *)
Module Demo.

Definition Cplus (a b : ComplexT) : ComplexT :=
  mkComplex (real a + real b) (imag a + imag b).

Definition flip_bit (num_qubits wire index : nat) : nat :=
  Nat.lxor index (2 ^ (num_qubits - 1 - wire)).

Definition controls_hold (num_qubits : nat) (controlled_wires : list nat)
  (controlled_values : list bool) (index : nat) : bool :=
  forallb (fun p => Bool.eqb (wire_bit num_qubits (fst p) index) (snd p))
          (combine controlled_wires controlled_values).

Definition pauli_x_on (active : nat -> bool) (arr : Buffer)
  (num_qubits wire : nat) : Buffer :=
  imap (fun i z => if active i
                   then nth (flip_bit num_qubits wire i) arr Czero
                   else z) arr.

Definition pauli_y_on (active : nat -> bool) (arr : Buffer)
  (num_qubits wire : nat) : Buffer :=
  imap (fun i z => if active i
                   then Cmult (mkComplex 0 (if wire_bit num_qubits wire i
                                            then 1 else -1))
                              (nth (flip_bit num_qubits wire i) arr Czero)
                   else z) arr.

Definition pauli_z_on (active : nat -> bool) (arr : Buffer)
  (num_qubits wire : nat) : Buffer :=
  imap (fun i z => if active i && wire_bit num_qubits wire i
                   then Cmult (mkComplex (-1) 0) z
                   else z) arr.

Definition matrix_on (active : nat -> bool) (matrix : list ComplexT)
  (arr : Buffer) (num_qubits wire : nat) : Buffer :=
  imap (fun i z =>
          if active i
          then
            let b := wire_bit num_qubits wire i in
            let i0 := if b then flip_bit num_qubits wire i else i in
            let i1 := if b then i else flip_bit num_qubits wire i in
            let row := if b then 2 else 0 in
            Cplus (Cmult (nth row matrix Czero) (nth i0 arr Czero))
                  (Cmult (nth (row + 1) matrix Czero) (nth i1 arr Czero))
          else z) arr.

Definition single_target {A : Type} (wires : list nat) (arr : Buffer)
  (kernel : nat -> Outcome A) : Outcome A :=
  match wires with
  | [wire] => kernel wire
  | _ => (inl (LightningException "one target wire expected"), arr)
  end.

Definition known {A : Type} (name expected : string) (arr : Buffer)
  (kernel : Outcome A) : Outcome A :=
  if String.eqb name expected then kernel else (inl out_of_range, arr).

(** The precondition the spec gives the controlled entry points of the
    dispatcher (section 4.2): control lists of the same size, checked before
    the kernel touches the buffer. *)
Definition matched {A : Type} (controlled_wires : list nat)
  (controlled_values : list bool) (arr : Buffer) (kernel : Outcome A)
  : Outcome A :=
  if length controlled_wires =? length controlled_values
  then kernel
  else (inl (LightningException msg_controlled_size), arr).

Definition find (name expected : string) : Exception + string :=
  if String.eqb name expected then inr name else inl out_of_range.

Definition everywhere (index : nat) : bool := true.

Definition ops : Operations := {|
  Threading := unit;
  CPUMemoryModel := unit;
  KernelType := nat;
  GateOperation := string;
  GeneratorOperation := string;
  ControlledGateOperation := string;
  ControlledGeneratorOperation := string
|}.

Definition impl : GateImplementation := {|
  applyPauliX arr nq wires adj :=
    single_target wires arr (fun wire =>
      (inr tt, pauli_x_on everywhere arr nq wire));
  applyPauliY arr nq wires adj :=
    single_target wires arr (fun wire =>
      (inr tt, pauli_y_on everywhere arr nq wire));
  applyPauliZ arr nq wires adj :=
    single_target wires arr (fun wire =>
      (inr tt, pauli_z_on everywhere arr nq wire))
|}.

Definition dispatcher : @DynamicDispatcher.t ops :=
  @DynamicDispatcher.Build_t ops
    (* hasGateOp *)
    (fun name => String.eqb name "PauliX")
    (* strToGateOp *)
    (fun name => find name "PauliX")
    (* strToControlledGateOp *)
    (fun name => find name "PauliX")
    (* strToGeneratorOp *)
    (fun name => find name "RX")
    (* strToControlledGeneratorOp *)
    (fun name => find name "RX")
    (* applyOperationByName *)
    (fun kernel arr nq name wires inv params =>
       known name "PauliX" arr (@applyPauliX impl arr nq wires inv))
    (* applyOperation *)
    (fun kernel arr nq gate_op wires inv params =>
       known gate_op "PauliX" arr (@applyPauliX impl arr nq wires inv))
    (* applyControlledGate *)
    (fun kernel arr nq name cw cv wires inv params =>
       matched cw cv arr
         (known name "PauliX" arr
            (single_target wires arr (fun wire =>
               (inr tt, pauli_x_on (controls_hold nq cw cv) arr nq wire)))))
    (* applyGenerator *)
    (fun kernel arr nq name wires adj =>
       known name "RX" arr
         (@PauliGenerator.applyGeneratorRX impl arr nq wires adj))
    (* applyControlledGenerator *)
    (fun kernel arr nq name cw cv wires adj =>
       matched cw cv arr
         (known name "RX" arr
            (single_target wires arr (fun wire =>
               (inr (- 0.5)%R,
                pauli_x_on (controls_hold nq cw cv) arr nq wire)))))
    (* applyMatrix *)
    (fun kernel arr nq matrix wires inv =>
       single_target wires arr (fun wire =>
         (inr tt, matrix_on everywhere matrix arr nq wire)))
    (* applyControlledMatrix *)
    (fun kernel arr nq matrix cw cv wires inv =>
       matched cw cv arr
         (single_target wires arr (fun wire =>
            (inr tt, matrix_on (controls_hold nq cw cv) matrix arr nq wire)))).

Definition engine : RandomEngine := {|
  mt19937_64 := list R;
  mt_seed value :=
    map (fun k => (INR ((N.to_nat value + k) mod 4) / 4)%R) (seq 0 8);
  discrete_distribution w0 w1 tape :=
    match tape with
    | [] => (false, [])
    | u :: rest =>
        (if Rlt_dec (u * (w0 + w1)) w0 then false else true, rest)
    end
|}.

Definition double_precision : NumericLimits := {| epsilon := epsilon_double |}.

(** The one kernel of the stand-in dispatcher. *)
Definition kernel : @KernelType ops := 0.

(** An object with every kernel map filled. *)
Definition state_vector (num_qubits : nat) (arr : Buffer) (tape : list R)
  : @StateVectorLQubit ops engine :=
  @mkStateVector ops engine num_qubits arr tt tt tape
    (fun _ => Some kernel) (fun _ => Some kernel) (fun _ => Some kernel)
    (fun _ => Some kernel) (fun _ => Some kernel) (fun _ => Some kernel).


(** One qubit in the basis state 0; the tape holds one variate. *)
Definition zero1 : @StateVectorLQubit ops engine :=
  state_vector 1 [Cone; Czero] [0%R].

(** The same amplitudes in another object: other variates on the tape. *)
Definition zero1' : @StateVectorLQubit ops engine :=
  state_vector 1 [Cone; Czero] [(1 / 2)%R; (1 / 4)%R].

(** Two qubits in the basis state 0. *)
Definition zero2 : @StateVectorLQubit ops engine :=
  state_vector 2 [Cone; Czero; Czero; Czero] [].


(** The identity on one qubit, row-major. *)
Definition identity1 : list ComplexT := [Cone; Czero; Czero; Cone].

End Demo.

(** ** Measurements over lists of operations *)

Module MeasurementsMPI.

Definition msg_lengths : string :=
  "The lengths of the list of operations and wires do not match.".

Section Lists.
Context {op_type : Type}.

(** The list overloads of [expval] and [var]: [measure_one] stands for the
    overload for one operation and its wires ([expval(op, wires)] or
    [var(op, wires)] on the state vector the object was built with), which
    returns a value or throws.  An exception leaves the loop. *)
Definition measure_each (measure_one : op_type -> list nat -> Exception + R)
  (operations_list : list op_type) (wires_list : list (list nat))
  : Exception + list R :=
  if negb (length operations_list =? length wires_list)
  then inl (LightningException msg_lengths)
  else
    for_loop (length operations_list) (fun index acc =>
      match acc with
      | inl e => inl e
      | inr value_list =>
          match operations_list !! index, wires_list !! index with
          | Some op, Some wires =>
              match measure_one op wires with
              | inl e => inl e
              | inr value => inr (value_list ++ [value])
              end
          | _, _ => acc
          end
      end) (inr []).

(** [expval(operations_list, wires_list)] *)
Definition expval_list := measure_each.

(** [var(operations_list, wires_list)] *)
Definition var_list := measure_each.

End Lists.
End MeasurementsMPI.

(** ** More vocabulary *)

(** The matrix operation for a number of target wires: the sizing rule of
    the [switch] in [applyMatrix]. *)
Definition sized_matrix_op (n_wires : nat) : MatrixOperation :=
  match n_wires with
  | 1 => SingleQubitOp
  | 2 => TwoQubitOp
  | _ => MultiQubitOp
  end.

(** ** More concrete inputs *)

Module Samples.

(** Two qubits in the basis state of index 2 (binary 10). *)
Definition one_zero : @StateVectorLQubit Demo.ops Demo.engine :=
  Demo.state_vector 2 (basis_state 4 2) [].

(** One qubit in the basis state 0, in an object whose kernel maps are
    empty. *)
Definition bare : @StateVectorLQubit Demo.ops Demo.engine :=
  @mkStateVector Demo.ops Demo.engine 1 [Cone; Czero] tt tt []
    (fun _ => None) (fun _ => None) (fun _ => None)
    (fun _ => None) (fun _ => None) (fun _ => None).

(** One qubit in the basis state 1; the tape holds one variate. *)
Definition one1 : @StateVectorLQubit Demo.ops Demo.engine :=
  Demo.state_vector 1 [Czero; Cone] [0%R].

(** A single-operation measurement: it throws on the operation named
    [broken] and returns the number of wires otherwise. *)
Definition reading (op : string) (wires : list nat) : Exception + R :=
  if String.eqb op "broken" then inl out_of_range
  else inr (INR (length wires)).

End Samples.

(** ** Auxiliary notions for the proofs *)

(** The indices the two nested loops of [probs] and [collapse] visit, in
    the order they visit them: [half] runs of [stride] indices, the run
    number [idx] starting at [offset idx]. *)
Definition visited (stride : nat) (offset : nat -> nat) (half : nat)
  : list nat :=
  flat_map (fun idx => map (fun ids => offset idx + ids) (seq 0 stride))
           (seq 0 half).

(** The sum of a list of reals. *)
Definition Rsum (l : list R) : R := fold_right Rplus 0%R l.

(** Two objects that [measure] cannot tell apart: the same register size,
    buffer and random engine state and, when the wire is to be reset, the
    same kernels for gates. *)
Definition alike `{Ops : Operations} `{Rng : RandomEngine} (reset : bool)
  (sv1 sv2 : StateVectorLQubit) : Prop :=
  num_qubits_ sv1 = num_qubits_ sv2 /\
  data sv1 = data sv2 /\
  rng sv1 = rng sv2 /\
  (reset = true ->
   forall gate_op,
     kernel_for_gates_ sv1 gate_op = kernel_for_gates_ sv2 gate_op).

(** A computation that returns the same on objects that are alike, and
    leaves them alike. *)
Definition respects `{Ops : Operations} `{Rng : RandomEngine} {A : Type}
  (reset : bool) (m : M A) : Prop :=
  forall sv1 sv2, alike reset sv1 sv2 ->
    fst (m sv1) = fst (m sv2) /\ alike reset (snd (m sv1)) (snd (m sv2)).

(** A computation that may change the buffer of the object and nothing
    else. *)
Definition buffer_only `{Ops : Operations} `{Rng : RandomEngine} {A : Type}
  (m : M A) : Prop :=
  forall sv, snd (m sv) = set_data (data (snd (m sv))) sv.

(** What [normalize] makes of a buffer: rescaled by the reciprocal of its
    norm above the threshold, untouched otherwise. *)
Definition norm_step `{Lim : NumericLimits} (arr : Buffer) : Buffer :=
  if Rgt_dec (sqrt (squaredNorm arr (length arr))) (epsilon * 100)
  then rescale (1 / sqrt (squaredNorm arr (length arr))) arr
  else arr.

(** The values of [measure_one] on a list of operations with their wires,
    left to right, up to the first exception. *)
Fixpoint collect {op_type : Type}
  (measure_one : op_type -> list nat -> Exception + R)
  (pairs : list (op_type * list nat)) : Exception + list R :=
  match pairs with
  | [] => inr []
  | (op, wires) :: rest =>
      match measure_one op wires with
      | inl e => inl e
      | inr value =>
          match collect measure_one rest with
          | inl e => inl e
          | inr values => inr (value :: values)
          end
      end
  end.

(** * Properties *)

(** ** Loops *)

Lemma for_loop_nested {S : Type} (stride : nat) (offset : nat -> nat)
  (half : nat) (body : nat -> S -> S) (s : S) :
  for_loop half (fun idx acc =>
    for_loop stride (fun ids acc => body (offset idx + ids) acc) acc) s
  = fold_left (fun acc i => body i acc) (visited stride offset half) s.
Proof.
  unfold for_loop, visited.
  generalize (seq 0 half) as runs. intros runs. revert s.
  induction runs as [|idx runs IH]; intros s; simpl; [reflexivity|].
  rewrite fold_left_app, IH. f_equal.
  generalize (seq 0 stride) as l. intros l. revert s.
  induction l as [|ids l IHl]; intros s; simpl; [reflexivity|].
  apply IHl.
Qed.

Lemma map_add_seq_from (a b n : nat) :
  map (fun ids => a + ids) (seq b n) = seq (a + b) n.
Proof.
  revert b. induction n as [|n IH]; intros b; simpl; [reflexivity|].
  f_equal. rewrite IH. f_equal. lia.
Qed.

Lemma map_add_seq (a n : nat) :
  map (fun ids => a + ids) (seq 0 n) = seq a n.
Proof. rewrite map_add_seq_from. f_equal. lia. Qed.

Lemma filter_all {A} (P : A -> Prop) `{!forall x, Decision (P x)}
  (l : list A) :
  (forall x, In x l -> P x) -> filter P l = l.
Proof.
  induction l as [|x l IH]; intros HP; [reflexivity|].
  rewrite filter_cons. destruct (decide (P x)) as [_|n].
  - f_equal. apply IH. intros y Hy. apply HP. now right.
  - exfalso. apply n, HP. now left.
Qed.

Lemma filter_none {A} (P : A -> Prop) `{!forall x, Decision (P x)}
  (l : list A) :
  (forall x, In x l -> ~ P x) -> filter P l = [].
Proof.
  induction l as [|x l IH]; intros HP; [reflexivity|].
  rewrite filter_cons. destruct (decide (P x)) as [p|_].
  - exfalso. apply (HP x); [now left|exact p].
  - apply IH. intros y Hy. apply HP. now right.
Qed.

(** Inside the run that starts at [2^m * q], the bit of weight [2^m] is the
    parity of [q]. *)
Lemma testbit_in_run (m q i : nat) :
  In i (seq (2 ^ m * q) (2 ^ m)) -> Nat.testbit i m = Nat.odd q.
Proof.
  rewrite in_seq. intros [Hlo Hhi].
  assert (Hpos : 2 ^ m <> 0) by (apply Nat.pow_nonzero; lia).
  assert (Hq : i / 2 ^ m = q).
  { symmetry. apply (Nat.div_unique i (2 ^ m) q (i - 2 ^ m * q)); lia. }
  rewrite Nat.testbit_eqb, Hq.
  rewrite <- Nat.bit0_mod, Nat.bit0_odd.
  destruct (Nat.odd q); reflexivity.
Qed.

Lemma visited_filter (m : nat) (b : bool) (offset : nat -> nat)
  (half : nat) :
  (forall idx, offset idx = 2 ^ m * (Nat.b2n b + 2 * idx)) ->
  visited (2 ^ m) offset half
  = filter (fun i => Nat.testbit i m = b) (seq 0 (2 ^ m * 2 * half)).
Proof.
  intros Hoff. unfold visited.
  induction half as [|h IH].
  - rewrite Nat.mul_0_r. reflexivity.
  - rewrite seq_S, flat_map_app, IH. simpl flat_map. rewrite app_nil_r.
    replace (2 ^ m * 2 * S h) with (2 ^ m * 2 * h + (2 ^ m + 2 ^ m)) by lia.
    rewrite seq_app, filter_app. f_equal.
    rewrite map_add_seq, Hoff, seq_app, filter_app. simpl Nat.add.
    replace (2 ^ m * 2 * h) with (2 ^ m * (2 * h)) by lia.
    replace (2 ^ m * (2 * h) + 2 ^ m) with (2 ^ m * (2 * h + 1)) by lia.
    assert (He : Nat.odd (2 * h) = false).
    { rewrite <- Nat.negb_even, Nat.even_mul. reflexivity. }
    assert (Ho : Nat.odd (2 * h + 1) = true).
    { rewrite Nat.add_1_r, Nat.odd_succ, Nat.even_mul. reflexivity. }
    destruct b; simpl Nat.b2n.
    + rewrite (filter_none _ (seq (2 ^ m * (2 * h)) (2 ^ m))).
      2:{ intros i Hi. rewrite (testbit_in_run _ _ _ Hi), He. discriminate. }
      rewrite (filter_all _ (seq (2 ^ m * (2 * h + 1)) (2 ^ m))).
      2:{ intros i Hi. rewrite (testbit_in_run _ _ _ Hi), Ho. reflexivity. }
      simpl. f_equal. lia.
    + rewrite (filter_all _ (seq (2 ^ m * (2 * h)) (2 ^ m))).
      2:{ intros i Hi. rewrite (testbit_in_run _ _ _ Hi), He. reflexivity. }
      rewrite (filter_none _ (seq (2 ^ m * (2 * h + 1)) (2 ^ m))).
      2:{ intros i Hi. rewrite (testbit_in_run _ _ _ Hi), Ho. discriminate. }
      rewrite app_nil_r. reflexivity.
Qed.

(** The loop bounds of [probs] and [collapse] for a wire of the register. *)
Lemma loop_bounds (num_qubits wire : nat) :
  wire < num_qubits ->
  2 ^ num_qubits / 2 ^ (num_qubits - (1 + wire)) / 2 = 2 ^ wire /\
  2 ^ (num_qubits - (1 + wire)) * 2 * 2 ^ wire = 2 ^ num_qubits.
Proof.
  intros Hw.
  assert (Hn : num_qubits = (num_qubits - (1 + wire)) + (1 + wire)) by lia.
  set (m := num_qubits - (1 + wire)) in *.
  assert (Hpos : 2 ^ m <> 0) by (apply Nat.pow_nonzero; lia).
  assert (Hpow : 2 ^ num_qubits = 2 ^ m * (2 * 2 ^ wire)).
  { rewrite Hn at 1. rewrite Nat.pow_add_r. simpl. lia. }
  split.
  - rewrite Hpow, Nat.mul_comm, Nat.div_mul by exact Hpos.
    rewrite Nat.mul_comm, Nat.div_mul by lia. reflexivity.
  - rewrite Hpow. lia.
Qed.

(** ** Sums of squared magnitudes *)

Lemma fold_left_Rplus {A} (g : A -> R) (l : list A) (a : R) :
  fold_left (fun acc x => (acc + g x)%R) l a = (a + Rsum (map g l))%R.
Proof.
  revert a. induction l as [|x l IH]; intros a; simpl.
  - lra.
  - rewrite IH. lra.
Qed.


Lemma Rsum_filter_split {A} (g : A -> R) (P : A -> Prop)
  `{!forall x, Decision (P x)} (l : list A) :
  Rsum (map g l)
  = (Rsum (map g (filter P l)) + Rsum (map g (filter (fun x => ~ P x) l)))%R.
Proof.
  induction l as [|x l IH]; simpl; [lra|].
  rewrite !filter_cons. destruct (decide (P x)) as [p|n].
  - destruct (decide (~ P x)) as [n'|_]; [contradiction|].
    simpl. rewrite IH. lra.
  - destruct (decide (~ P x)) as [_|p']; [|contradiction].
    simpl. rewrite IH. lra.
Qed.


Lemma map_nth_seq (arr : Buffer) :
  map (fun i => nth i arr Czero) (seq 0 (length arr)) = arr.
Proof.
  apply list_eq. intros i.
  change (map ?f ?l) with (f <$> l).
  rewrite list_lookup_fmap.
  destruct (decide (i < length arr)) as [Hi|Hi].
  - rewrite lookup_seq_lt by exact Hi. simpl.
    rewrite nth_lookup.
    destruct (lookup_lt_is_Some_2 arr i Hi) as [z Hz]. rewrite Hz.
    reflexivity.
  - rewrite lookup_seq_ge by lia. simpl.
    symmetry. apply lookup_ge_None. lia.
Qed.

Lemma squaredNorm_Rsum (arr : Buffer) :
  squaredNorm arr (length arr) = Rsum (map Cnorm arr).
Proof.
  unfold squaredNorm. rewrite firstn_all, fold_left_Rplus. lra.
Qed.

Lemma weight_Rsum (select : nat -> bool) (arr : Buffer) :
  weight select arr
  = Rsum (map (fun i => Cnorm (nth i arr Czero))
              (filter (fun i => select i = true) (seq 0 (length arr)))).
Proof. unfold weight. rewrite fold_left_Rplus. lra. Qed.


(** The squared norm splits into the weights of a selection and of its
    complement. *)
Lemma squaredNorm_split (select : nat -> bool) (arr : Buffer) :
  squaredNorm arr (length arr)
  = (weight select arr + weight (fun i => negb (select i)) arr)%R.
Proof.
  rewrite squaredNorm_Rsum, !weight_Rsum.
  rewrite <- (map_nth_seq arr) at 1. rewrite map_map.
  rewrite (Rsum_filter_split _ (fun i => select i = true)).
  f_equal. f_equal. f_equal.
  apply list_filter_iff. intros i. destruct (select i); simpl; split;
    congruence.
Qed.

(** ** Probabilities, collapse and normalization *)

Section Measurement.
Context `{Ops : Operations} `{Disp : !DynamicDispatcher.t}
        `{Rng : RandomEngine} `{Lim : NumericLimits}.

(** The wire bit is the binary digit of the index at position
    [num_qubits - 1 - wire]: wire 0 is the most significant digit. *)
Lemma wire_bit_testbit (num_qubits wire index : nat) :
  wire_bit num_qubits wire index
  = Nat.testbit index (num_qubits - 1 - wire).
Proof.
  unfold wire_bit. rewrite Nat.testbit_eqb, <- Nat.bit0_mod, Nat.bit0_odd.
  destruct (Nat.odd _); reflexivity.
Qed.

(** The indices visited for branch label [b] are those whose wire bit is
    [b]. *)
Lemma visited_wire_bit (num_qubits wire : nat) (b : bool)
  (offset : nat -> nat) :
  wire < num_qubits ->
  (forall idx,
     offset idx = 2 ^ (num_qubits - (1 + wire)) * (Nat.b2n b + 2 * idx)) ->
  visited (2 ^ (num_qubits - (1 + wire))) offset
          (2 ^ num_qubits / 2 ^ (num_qubits - (1 + wire)) / 2)
  = filter (fun i => wire_bit num_qubits wire i = b)
           (seq 0 (2 ^ num_qubits)).
Proof.
  intros Hw Hoff.
  destruct (loop_bounds num_qubits wire Hw) as [Hhalf Hlen].
  rewrite Hhalf, (visited_filter _ b offset _ Hoff), Hlen.
  apply list_filter_iff. intros i. rewrite wire_bit_testbit.
  replace (num_qubits - 1 - wire) with (num_qubits - (1 + wire)) by lia.
  reflexivity.
Qed.

Lemma probs_weight (sv : StateVectorLQubit) (wire : nat) :
  wire < num_qubits_ sv ->
  length (data sv) = 2 ^ num_qubits_ sv ->
  probs wire sv
  = (inr [weight (fun i => negb (wire_bit (num_qubits_ sv) wire i)) (data sv);
          (1 - weight (fun i => negb (wire_bit (num_qubits_ sv) wire i))
                      (data sv))%R],
     sv).
Proof.
  intros Hw Hlen. unfold probs.
  set (stride := 2 ^ (num_qubits_ sv - (1 + wire))).
  set (half := 2 ^ num_qubits_ sv / stride / 2).
  pose proof (for_loop_nested stride (fun idx => stride * 2 * idx) half
                (fun i acc => (acc + Cnorm (nth i (data sv) Czero))%R) 0%R)
    as Hloop.
  cbv beta in Hloop. rewrite Hloop. clear Hloop.
  unfold half, stride.
  rewrite (visited_wire_bit _ _ false) by (try assumption; intros; simpl; lia).
  assert (Hw8 : fold_left
            (fun acc i => (acc + Cnorm (nth i (data sv) Czero))%R)
            (filter (fun i => wire_bit (num_qubits_ sv) wire i = false)
                    (seq 0 (2 ^ num_qubits_ sv))) 0%R
          = weight (fun i => negb (wire_bit (num_qubits_ sv) wire i))
                   (data sv)).
  { unfold weight. rewrite Hlen. f_equal.
    apply list_filter_iff. intros i.
    destruct (wire_bit (num_qubits_ sv) wire i); simpl; split; congruence. }
  rewrite Hw8. reflexivity.
Qed.

(** *** Writes into the buffer *)

Lemma lookup_zeroed (idxs : list nat) (arr : Buffer) (j : nat) :
  fold_left (fun acc i => <[i := Czero]> acc) idxs arr !! j
  = if decide (j ∈ idxs) then (fun _ => Czero) <$> arr !! j else arr !! j.
Proof.
  revert arr. induction idxs as [|i idxs IH]; intros arr; cbn [fold_left].
  - destruct (decide (j ∈ [])) as [Hin|_]; [|reflexivity].
    inversion Hin.
  - rewrite IH, list_lookup_insert.
    destruct (decide (i = j ∧ i < length arr)) as [[-> Hlt]|Hne].
    + destruct (lookup_lt_is_Some_2 arr j Hlt) as [z Hz]. rewrite Hz.
      rewrite (decide_True (P := j ∈ j :: idxs))
        by (apply elem_of_cons; left; reflexivity).
      destruct (decide (j ∈ idxs)); reflexivity.
    + destruct (decide (j ∈ idxs)) as [Hin|Hnin].
      * rewrite (decide_True (P := j ∈ i :: idxs))
          by (apply elem_of_cons; right; assumption).
        reflexivity.
      * destruct (decide (j ∈ i :: idxs)) as [Hin|_]; [|reflexivity].
        apply elem_of_cons in Hin as [->|Hin]; [|contradiction].
        destruct (arr !! i) as [z|] eqn:Hz; [|reflexivity].
        exfalso. apply Hne. split; [reflexivity|].
        apply lookup_lt_is_Some. eauto.
Qed.

(** The zeroing loops of [collapse] keep the chosen branch and nothing
    else. *)
Lemma collapse_loops (num_qubits wire : nat) (branch : bool) (arr : Buffer) :
  wire < num_qubits ->
  length arr = 2 ^ num_qubits ->
  let stride := 2 ^ (num_qubits - (1 + wire)) in
  let k := if branch then 0 else 1 in
  for_loop (2 ^ num_qubits / stride / 2) (fun idx arr =>
    for_loop stride (fun ids arr =>
      <[stride * (k + 2 * idx) + ids := Czero]> arr) arr) arr
  = keep_branch num_qubits wire branch arr.
Proof.
  intros Hw Hlen stride k.
  pose proof (for_loop_nested stride (fun idx => stride * (k + 2 * idx))
                (2 ^ num_qubits / stride / 2)
                (fun i acc => <[i := Czero]> acc) arr) as Hloop.
  cbv beta in Hloop. rewrite Hloop. clear Hloop.
  unfold stride.
  rewrite (visited_wire_bit _ _ (negb branch))
    by (try assumption; intros; unfold k; destruct branch; reflexivity).
  apply list_eq. intros j.
  rewrite lookup_zeroed. unfold keep_branch. rewrite list_lookup_imap.
  destruct (arr !! j) as [z|] eqn:Hz; simpl.
  - assert (Hj : j < 2 ^ num_qubits).
    { rewrite <- Hlen. apply lookup_lt_is_Some. eauto. }
    destruct (decide (j ∈ filter
                (fun i => wire_bit num_qubits wire i = negb branch)
                (seq 0 (2 ^ num_qubits)))) as [Hin|Hnin].
    + apply list_elem_of_filter in Hin as [Hbit _]. rewrite Hbit.
      destruct branch; reflexivity.
    + destruct (Bool.eqb (wire_bit num_qubits wire j) branch) eqn:Heq;
        [reflexivity|].
      exfalso. apply Hnin. apply list_elem_of_filter. split.
      * destruct (wire_bit num_qubits wire j), branch; simpl in *;
          congruence.
      * apply elem_of_seq. lia.
  - destruct (decide _); reflexivity.
Qed.

(** The scaling loop of [normalize] multiplies every amplitude once. *)
Lemma lookup_scaled (factor : ComplexT) (arr : Buffer) (n j : nat) :
  n <= length arr ->
  for_loop n (fun k acc => <[k := Cmult (nth k acc Czero) factor]> acc) arr
    !! j
  = if decide (j < n) then (fun z => Cmult z factor) <$> arr !! j
    else arr !! j.
Proof.
  unfold for_loop. induction n as [|n IH]; intros Hn.
  - simpl. destruct (decide (j < 0)); [lia|reflexivity].
  - rewrite seq_S, fold_left_app. cbn [fold_left Nat.add].
    set (acc := fold_left _ (seq 0 n) arr) in *.
    assert (Hlen : length acc = length arr).
    { unfold acc. clear. generalize (seq 0 n) as l. intros l. revert arr.
      induction l as [|i l IHl]; intros arr; cbn [fold_left];
        [reflexivity|].
      rewrite IHl. apply length_insert. }
    rewrite list_lookup_insert.
    destruct (decide (n = j ∧ n < length acc)) as [[<- Hlt]|Hne].
    + rewrite decide_True by lia.
      rewrite nth_lookup, IH by lia.
      rewrite decide_False by lia.
      destruct (lookup_lt_is_Some_2 arr n) as [z Hz]; [lia|].
      rewrite Hz. reflexivity.
    + rewrite IH by lia.
      destruct (decide (j < n)) as [Hlt|Hge].
      * rewrite decide_True by lia. reflexivity.
      * rewrite decide_False by lia. reflexivity.
Qed.

Lemma normalize_loop (factor : R) (arr : Buffer) :
  for_loop (length arr) (fun k acc =>
    <[k := Cmult (nth k acc Czero) (mkComplex factor 0)]> acc) arr
  = rescale factor arr.
Proof.
  apply list_eq. intros j.
  rewrite lookup_scaled by lia. unfold rescale.
  change (map ?f ?l) with (f <$> l). rewrite list_lookup_fmap.
  destruct (decide (j < length arr)) as [_|Hge]; [reflexivity|].
  rewrite (proj2 (lookup_ge_None arr j)) by lia. reflexivity.
Qed.

Lemma length_keep_branch (num_qubits wire : nat) (branch : bool)
  (arr : Buffer) :
  length (keep_branch num_qubits wire branch arr) = length arr.
Proof. apply length_imap. Qed.

Lemma length_rescale (factor : R) (arr : Buffer) :
  length (rescale factor arr) = length arr.
Proof. apply length_map. Qed.

Lemma nth_keep_branch (num_qubits wire : nat) (branch : bool) (arr : Buffer)
  (i : nat) :
  nth i (keep_branch num_qubits wire branch arr) Czero
  = if Bool.eqb (wire_bit num_qubits wire i) branch
    then nth i arr Czero else Czero.
Proof.
  unfold keep_branch. rewrite !nth_lookup, list_lookup_imap.
  destruct (arr !! i) as [z|]; simpl; [reflexivity|].
  destruct (Bool.eqb _ _); reflexivity.
Qed.



Lemma Cnorm_Czero : Cnorm Czero = 0%R.
Proof. unfold Cnorm, Czero. simpl. ring. Qed.

(** A weight only depends on the squared magnitudes at the selected
    indices. *)
Lemma weight_scaled (select : nat -> bool) (arr arr' : Buffer) (c : R) :
  length arr = length arr' ->
  (forall i, i < length arr -> select i = true ->
             Cnorm (nth i arr Czero) = (c * Cnorm (nth i arr' Czero))%R) ->
  weight select arr = (c * weight select arr')%R.
Proof.
  intros Hlen Hpt. rewrite !weight_Rsum, <- Hlen.
  assert (Hin : forall i,
             i ∈ filter (fun i => select i = true) (seq 0 (length arr)) ->
             i < length arr /\ select i = true).
  { intros i Hi. apply list_elem_of_filter in Hi as [Hs Hi].
    apply elem_of_seq in Hi. split; [lia|exact Hs]. }
  revert Hin.
  generalize (filter (fun i => select i = true) (seq 0 (length arr))) as l.
  induction l as [|i l IH]; intros Hin; simpl; [ring|].
  rewrite IH.
  - destruct (Hin i) as [Hi Hs]; [apply elem_of_cons; left; reflexivity|].
    rewrite (Hpt i Hi Hs). ring.
  - intros x Hx. apply Hin. apply elem_of_cons. right. exact Hx.
Qed.

Lemma normalize_rescales (sv : StateVectorLQubit) :
  let norm := sqrt (squaredNorm (data sv) (length (data sv))) in
  normalize sv
  = (inr tt,
     if Rgt_dec norm (epsilon * 100)
     then set_data (rescale (1 / norm) (data sv)) sv
     else sv).
Proof.
  intros norm. unfold normalize. fold norm.
  destruct (Rgt_dec norm (epsilon * 100)); [|reflexivity].
  rewrite normalize_loop. reflexivity.
Qed.

Lemma collapse_rescales (sv : StateVectorLQubit) (wire : nat)
  (branch : bool) :
  wire < num_qubits_ sv ->
  length (data sv) = 2 ^ num_qubits_ sv ->
  let kept := keep_branch (num_qubits_ sv) wire branch (data sv) in
  let norm := sqrt (squaredNorm kept (length kept)) in
  collapse wire branch sv
  = (inr tt,
     set_data (if Rgt_dec norm (epsilon * 100)
               then rescale (1 / norm) kept else kept) sv).
Proof.
  intros Hw Hlen kept norm. unfold collapse.
  rewrite (collapse_loops _ _ _ _ Hw Hlen). fold kept.
  rewrite normalize_rescales. simpl data. fold norm.
  destruct (Rgt_dec norm (epsilon * 100)); reflexivity.
Qed.

(** The squared norm of what [collapse] keeps is the weight of the kept
    branch. *)
Lemma squaredNorm_keep_branch (num_qubits wire : nat) (branch : bool)
  (arr : Buffer) :
  let kept := keep_branch num_qubits wire branch arr in
  squaredNorm kept (length kept)
  = weight (fun i => Bool.eqb (wire_bit num_qubits wire i) branch) arr.
Proof.
  intros kept.
  rewrite (squaredNorm_split
             (fun i => Bool.eqb (wire_bit num_qubits wire i) branch)).
  assert (Hlen : length kept = length arr) by apply length_keep_branch.
  rewrite (weight_scaled _ kept arr 1 Hlen).
  2:{ intros i _ Hs. unfold kept. rewrite nth_keep_branch, Hs. ring. }
  rewrite (weight_scaled (fun i => negb _) kept arr 0 Hlen).
  2:{ intros i _ Hs. unfold kept. rewrite nth_keep_branch.
      apply Bool.negb_true_iff in Hs. rewrite Hs, Cnorm_Czero. ring. }
  ring.
Qed.

End Measurement.

(** ** Sequencing *)

Section Sequencing.
Context `{Ops : Operations} `{Rng : RandomEngine}.

Lemma bind_returns {A B} (m : M A) (k : A -> M B) (sv sv' : StateVectorLQubit)
  (a : A) :
  m sv = (inr a, sv') -> bind m k sv = k a sv'.
Proof. intros Hm. unfold bind. rewrite Hm. reflexivity. Qed.

End Sequencing.

(** ** Claims on probabilities and collapse *)

Section MeasurementClaims.
Context `{Ops : Operations} `{Disp : !DynamicDispatcher.t}
        `{Rng : RandomEngine} `{Lim : NumericLimits}.


(** C4: for a wire of the register, [collapse] sets to zero exactly the
    amplitudes whose wire bit disagrees with the branch, and then multiplies
    every amplitude by the reciprocal of the norm of what is left if that
    norm exceeds 100 epsilon; otherwise it leaves the zeroed buffer
    unscaled.  The call returns normally in both cases. *)
Theorem collapse_zeroes_then_rescales (sv : StateVectorLQubit) (wire : nat)
  (branch : bool) :
  wire < num_qubits_ sv ->
  length (data sv) = 2 ^ num_qubits_ sv ->
  let kept := keep_branch (num_qubits_ sv) wire branch (data sv) in
  let norm := sqrt (squaredNorm kept (length kept)) in
  (forall i,
     nth i kept Czero
     = if Bool.eqb (wire_bit (num_qubits_ sv) wire i) branch
       then nth i (data sv) Czero else Czero) /\
  ((norm > epsilon * 100)%R ->
   collapse wire branch sv
   = (inr tt, set_data (rescale (1 / norm) kept) sv)) /\
  (~ (norm > epsilon * 100)%R ->
   collapse wire branch sv = (inr tt, set_data kept sv)).
Proof.
  intros Hw Hlen kept norm. split; [|split].
  - intros i. apply nth_keep_branch.
  - intros Hgt. rewrite (collapse_rescales sv wire branch Hw Hlen).
    fold kept norm. destruct (Rgt_dec norm (epsilon * 100));
      [reflexivity|contradiction].
  - intros Hle. rewrite (collapse_rescales sv wire branch Hw Hlen).
    fold kept norm. destruct (Rgt_dec norm (epsilon * 100));
      [contradiction|reflexivity].
Qed.


End MeasurementClaims.

(** ** Claims on [measure] *)

Section Sampling.
Context `{Ops : Operations} `{Disp : !DynamicDispatcher.t}
        `{Rng : RandomEngine} `{Lim : NumericLimits}.

Lemma probs_returns (wire : nat) (sv : StateVectorLQubit) :
  probs wire sv
  = (inr [prob_0_of wire sv; (1 - prob_0_of wire sv)%R], sv).
Proof. reflexivity. Qed.

Lemma random_sample_draws (wire : nat) (sv : StateVectorLQubit) :
  random_sample (prob_0_of wire sv) sv
  = (inr (Z.b2z (fst (draw_of wire sv))), set_rng (snd (draw_of wire sv)) sv).
Proof.
  unfold random_sample, draw_of.
  destruct (discrete_distribution _ _ _) as [index g]. reflexivity.
Qed.

(** Zeroing the first amplitude of a basis state at index 0 leaves no
    amplitude. *)
Lemma basis_state_zeroed (len : nat) :
  <[0 := Czero]> (basis_state len 0) = replicate len Czero.
Proof. destruct len; reflexivity. Qed.

(** The postselection-failure branch of [measure]. *)
Lemma measure_mismatch (sv : StateVectorLQubit) (wire : nat)
  (postselect : Z) (reset : bool) :
  postselect <> (-1)%Z ->
  postselect <> Z.b2z (fst (draw_of wire sv)) ->
  measure wire postselect reset sv
  = (inr (-1)%Z,
     set_data (replicate (length (data sv)) Czero)
              (set_rng (snd (draw_of wire sv)) sv)).
Proof.
  intros Hps Hne. unfold measure.
  rewrite (bind_returns _ _ _ _ _ (probs_returns wire sv)).
  cbn [nth].
  rewrite (bind_returns _ _ _ _ _ (random_sample_draws wire sv)).
  apply Z.eqb_neq in Hps, Hne. rewrite Hps, Hne. cbn [negb andb].
  unfold bind, setBasisState, getData, putData, ret. cbn [data set_data].
  fold (basis_state (length (data (set_rng (snd (draw_of wire sv)) sv))) 0).
  rewrite basis_state_zeroed. reflexivity.
Qed.

(** C1, as the code has it: when [measure] draws a sample that disagrees
    with a postselect value of 0 or 1, it returns -1 and leaves every
    amplitude of the state vector zero: [setBasisState(0)] is followed by
    zeroing the amplitude at index 0. *)
Theorem measure_postselect_mismatch_zeroes (sv : StateVectorLQubit)
  (wire : nat) (postselect : Z) (reset : bool) :
  wire < num_qubits_ sv ->
  (postselect = 0 \/ postselect = 1)%Z ->
  Z.b2z (fst (draw_of wire sv)) <> postselect ->
  fst (measure wire postselect reset sv) = inr (-1)%Z /\
  data (snd (measure wire postselect reset sv))
  = replicate (length (data sv)) Czero.
Proof.
  intros _ Hps Hne.
  rewrite measure_mismatch by (try congruence; lia).
  split; reflexivity.
Qed.

(** *** Determinism *)

Lemma respects_ret {A} (reset : bool) (a : A) : respects reset (ret a).
Proof. intros sv1 sv2 H. split; [reflexivity|exact H]. Qed.

Lemma respects_bind {A B} (reset : bool) (m : M A) (k : A -> M B) :
  respects reset m -> (forall a, respects reset (k a)) ->
  respects reset (bind m k).
Proof.
  intros Hm Hk sv1 sv2 H. unfold bind.
  destruct (Hm sv1 sv2 H) as [Hfst Hsnd].
  destruct (m sv1) as [[e1|a1] s1], (m sv2) as [[e2|a2] s2];
    simpl in Hfst, Hsnd; try discriminate.
  - injection Hfst as <-. split; [reflexivity|exact Hsnd].
  - injection Hfst as <-. apply Hk. exact Hsnd.
Qed.

Lemma alike_set_data (reset : bool) (sv1 sv2 : StateVectorLQubit)
  (arr : Buffer) :
  alike reset sv1 sv2 -> alike reset (set_data arr sv1) (set_data arr sv2).
Proof.
  intros (Hn & Hd & Hr & Hk). repeat split; try assumption.
Qed.

Lemma respects_probs (reset : bool) (wire : nat) :
  respects reset (probs wire).
Proof.
  intros sv1 sv2 H. pose proof H as (Hn & Hd & Hr & Hk).
  unfold probs. rewrite Hn, Hd. split; [reflexivity|exact H].
Qed.

Lemma respects_random_sample (reset : bool) (prob_0 : R) :
  respects reset (random_sample prob_0).
Proof.
  intros sv1 sv2 (Hn & Hd & Hr & Hk). unfold random_sample. rewrite Hr.
  destruct (discrete_distribution _ _ _) as [index g].
  repeat split; assumption.
Qed.

Lemma respects_setBasisState (reset : bool) (index : nat) :
  respects reset (setBasisState index).
Proof.
  intros sv1 sv2 H. pose proof H as (Hn & Hd & Hr & Hk).
  unfold setBasisState. rewrite Hd. split; [reflexivity|].
  apply alike_set_data. exact H.
Qed.

Lemma respects_getData (reset : bool) : respects reset getData.
Proof.
  intros sv1 sv2 H. pose proof H as (Hn & Hd & Hr & Hk).
  unfold getData. simpl. rewrite Hd. split; [reflexivity|exact H].
Qed.

Lemma respects_putData (reset : bool) (arr : Buffer) :
  respects reset (putData arr).
Proof.
  intros sv1 sv2 H. split; [reflexivity|].
  apply alike_set_data. exact H.
Qed.

Lemma respects_normalize (reset : bool) : respects reset normalize.
Proof.
  intros sv1 sv2 H. pose proof H as (Hn & Hd & Hr & Hk).
  unfold normalize. rewrite Hd.
  destruct (Rgt_dec _ _); (split; [reflexivity|]); [|exact H].
  apply alike_set_data. exact H.
Qed.

Lemma respects_collapse (reset : bool) (wire : nat) (branch : bool) :
  respects reset (collapse wire branch).
Proof.
  intros sv1 sv2 H. pose proof H as (Hn & Hd & Hr & Hk).
  unfold collapse. rewrite Hn, Hd.
  apply respects_normalize. apply alike_set_data. exact H.
Qed.

Lemma respects_applyOperation (opName : string) (wires : list nat)
  (inverse : bool) (params : list R) :
  respects true (applyOperation opName wires inverse params).
Proof.
  unfold applyOperation. apply respects_bind.
  - intros sv1 sv2 H. unfold lookup_op.
    destruct (DynamicDispatcher.strToGateOp opName);
      (split; [reflexivity|exact H]).
  - intros gate_op. apply respects_bind.
    + intros sv1 sv2 H. pose proof H as (Hn & Hd & Hr & Hk).
      unfold getKernelForGate, at_. rewrite (Hk eq_refl gate_op).
      destruct (kernel_for_gates_ sv2 gate_op);
        (split; [reflexivity|exact H]).
    + intros kernel sv1 sv2 H. pose proof H as (Hn & Hd & Hr & Hk).
      unfold dispatch. rewrite Hn, Hd.
      destruct (DynamicDispatcher.applyOperation _ _ _ _ _ _ _) as [r arr].
      split; [reflexivity|]. apply alike_set_data. exact H.
Qed.

Lemma respects_measure (wire : nat) (postselect : Z) (reset : bool) :
  respects reset (measure wire postselect reset).
Proof.
  unfold measure. apply respects_bind; [apply respects_probs|].
  intros probs_. apply respects_bind; [apply respects_random_sample|].
  intros sample.
  destruct (negb (postselect =? -1)%Z && negb (postselect =? sample)%Z).
  - apply respects_bind; [apply respects_setBasisState|]. intros _.
    apply respects_bind; [|intros _; apply respects_ret].
    apply respects_bind; [apply respects_getData|].
    intros arr. apply respects_putData.
  - apply respects_bind; [apply respects_collapse|]. intros _.
    apply respects_bind; [|intros _; apply respects_ret].
    destruct reset; simpl.
    + destruct (sample =? 1)%Z;
        [apply respects_applyOperation|apply respects_ret].
    + apply respects_ret.
Qed.

Lemma respects_measure_repeatedly (count : nat) (wire : nat)
  (postselect : Z) (reset : bool) :
  respects reset (measure_repeatedly count wire postselect reset).
Proof.
  induction count as [|count IH]; simpl.
  - apply respects_ret.
  - apply respects_bind; [apply respects_measure|]. intros sample.
    apply respects_bind; [exact IH|]. intros samples. apply respects_ret.
Qed.

(** C9: two state-vector objects that hold the same amplitudes, each seeded
    with the same value, produce the same sequence of samples from repeated
    calls to [measure] on one wire.  When the calls reset the wire, a gate
    is applied and the two objects are taken to select the same kernels for
    gates. *)
Theorem seeded_sampling_is_deterministic (sv1 sv2 : StateVectorLQubit)
  (value : N) (count wire : nat) (postselect : Z) (reset : bool) :
  num_qubits_ sv1 = num_qubits_ sv2 ->
  data sv1 = data sv2 ->
  (reset = true ->
   forall gate_op,
     kernel_for_gates_ sv1 gate_op = kernel_for_gates_ sv2 gate_op) ->
  fst (bind (seed value)
            (fun _ => measure_repeatedly count wire postselect reset) sv1)
  = fst (bind (seed value)
              (fun _ => measure_repeatedly count wire postselect reset) sv2).
Proof.
  intros Hn Hd Hk. unfold bind, seed.
  apply respects_measure_repeatedly.
  repeat split; assumption.
Qed.

End Sampling.

(** ** Claims on operation application *)

Section Dispatch.
Context `{Ops : Operations} `{Disp : !DynamicDispatcher.t}
        `{Rng : RandomEngine} `{Lim : NumericLimits}.


(** The size check of the two [applyMatrix] overloads that take a
    vector. *)
Lemma applyMatrix_rejects_wrong_size (sv : StateVectorLQubit)
  (kernel : KernelType) (matrix : list ComplexT) (wires : list nat)
  (inverse : bool) :
  length matrix <> exp2 (2 * length wires) ->
  applyMatrix_kernel kernel matrix wires inverse sv
  = (inl (LightningException msg_matrix_size), sv) /\
  applyMatrix matrix wires inverse sv
  = (inl (LightningException msg_matrix_size), sv).
Proof.
  intros Hsize. apply Nat.eqb_neq in Hsize.
  unfold applyMatrix_kernel, applyMatrix, bind, PL_ABORT_IF.
  rewrite Hsize. split; reflexivity.
Qed.


(** The controlled [applyGenerator] goes to the name table and the kernel
    without looking at the lengths of the control lists. *)
Lemma applyGenerator_controlled_unchecked (sv : StateVectorLQubit)
  (opName : string) (controlled_wires : list nat)
  (controlled_values : list bool) (wires : list nat) (adj : bool)
  (generator_op : ControlledGeneratorOperation) (kernel : KernelType) :
  DynamicDispatcher.strToControlledGeneratorOp opName = inr generator_op ->
  kernel_for_controlled_generators_ sv generator_op = Some kernel ->
  applyGenerator_controlled opName controlled_wires controlled_values wires
    adj sv
  = dispatch (fun arr nq =>
      DynamicDispatcher.applyControlledGenerator kernel arr nq opName
        controlled_wires controlled_values wires adj) sv.
Proof.
  intros Hop Hk.
  unfold applyGenerator_controlled, bind, lookup_op,
    getKernelForControlledGenerator, at_.
  rewrite Hop. unfold ret. rewrite Hk. reflexivity.
Qed.

(** [applyGenerator] hands back the scalar of the kernel the generator
    map selects. *)
Lemma applyGenerator_returns_kernel_scalar (sv : StateVectorLQubit)
  (opName : string) (wires : list nat) (adj : bool)
  (gen_op : GeneratorOperation) (kernel : KernelType) :
  DynamicDispatcher.strToGeneratorOp opName = inr gen_op ->
  kernel_for_generators_ sv gen_op = Some kernel ->
  applyGenerator opName wires adj sv
  = dispatch (fun arr nq =>
      DynamicDispatcher.applyGenerator kernel arr nq opName wires adj) sv.
Proof.
  intros Hop Hk.
  unfold applyGenerator, bind, lookup_op, getKernelForGenerator, at_.
  rewrite Hop. unfold ret. rewrite Hk. reflexivity.
Qed.

(** The vector overload of [applyControlledMatrix] hands the matrix to the
    kernel whatever its size. *)
Lemma applyControlledMatrix_unchecked (sv : StateVectorLQubit)
  (matrix : list ComplexT) (controlled_wires : list nat)
  (controlled_values : list bool) (wires : list nat) (inverse : bool)
  (kernel : KernelType) :
  wires <> [] ->
  length controlled_wires = length controlled_values ->
  kernel_for_controlled_matrices_ sv
    (sized_controlled_matrix_op (length wires)) = Some kernel ->
  applyControlledMatrix matrix controlled_wires controlled_values wires
    inverse sv
  = dispatch (fun arr nq =>
      DynamicDispatcher.applyControlledMatrix kernel arr nq matrix
        controlled_wires controlled_values wires inverse) sv.
Proof.
  intros Hw Hsize Hk. apply Nat.eqb_eq in Hsize.
  unfold applyControlledMatrix, applyControlledMatrix_ptr, bind,
    PL_ABORT_IF_NOT, PL_ABORT_IF.
  rewrite Hsize.
  destruct wires as [|w1 [|w2 [|w3 wires]]]; [contradiction| | |];
    cbn in Hk |- *;
    unfold getKernelForControlledMatrix, at_, ret; rewrite Hk; reflexivity.
Qed.

(** C2, as the code has it: [applyControlledMatrix], the entry point that
    takes a raw matrix with control wires, selects the kernel by the number
    of target wires (one: NCSingleQubitOp, two: NCTwoQubitOp, three or
    more: NCMultiQubitOp) and dispatches the controlled-matrix operation;
    [applyOperation] with a matrix and a non-empty control list does not
    look at the matrix: it is the named controlled-gate call, whatever the
    name. *)
Theorem controlled_matrix_path (sv : StateVectorLQubit) (opName : string)
  (matrix : list ComplexT) (controlled_wires : list nat)
  (controlled_values : list bool) (wires : list nat) (inverse : bool)
  (params : list R) :
  (sized_controlled_matrix_op 1 = NCSingleQubitOp /\
   sized_controlled_matrix_op 2 = NCTwoQubitOp /\
   forall n_wires, 3 <= n_wires ->
     sized_controlled_matrix_op n_wires = NCMultiQubitOp) /\
  (wires <> [] ->
   length controlled_wires = length controlled_values ->
   applyControlledMatrix matrix controlled_wires controlled_values wires
     inverse sv
   = bind (getKernelForControlledMatrix
             (sized_controlled_matrix_op (length wires)))
          (fun kernel => dispatch (fun arr nq =>
             DynamicDispatcher.applyControlledMatrix kernel arr nq matrix
               controlled_wires controlled_values wires inverse)) sv) /\
  (controlled_wires <> [] ->
   applyOperation_controlled_matrix opName controlled_wires
     controlled_values wires inverse params matrix sv
   = applyOperation_controlled opName controlled_wires controlled_values
       wires inverse params sv).
Proof.
  split; [|split].
  - repeat split.
    intros [|[|[|n]]] Hn; try lia. reflexivity.
  - intros Hw Hsize. apply Nat.eqb_eq in Hsize.
    unfold applyControlledMatrix, applyControlledMatrix_ptr, bind at 1 2,
      PL_ABORT_IF_NOT, PL_ABORT_IF.
    rewrite Hsize.
    destruct wires as [|w1 [|w2 [|w3 wires]]]; [contradiction| | |];
      reflexivity.
  - intros Hc.
    assert (Hne : negb (length controlled_wires =? 0) = true).
    { destruct controlled_wires; [contradiction|reflexivity]. }
    unfold applyOperation_controlled_matrix. rewrite Hne.
    unfold applyOperation_controlled, bind, PL_ABORT_IF_NOT, PL_ABORT_IF.
    destruct (length controlled_wires =? length controlled_values);
      reflexivity.
Qed.

(** C10, as the code has it: with an empty wire list every overload of
    [applyMatrix] and [applyControlledMatrix] throws and leaves the object
    as it was.  The pointer overloads and [applyControlledMatrix] report
    that the number of wires must be larger than 0; the vector overloads of
    [applyMatrix] check the matrix size first, so they report that message
    only for a matrix of exactly one element and a size mismatch
    otherwise. *)
Theorem apply_matrix_without_wires (sv : StateVectorLQubit)
  (kernel : KernelType) (matrix : list ComplexT)
  (controlled_wires : list nat) (controlled_values : list bool)
  (inverse : bool) :
  applyMatrix_kernel_ptr kernel matrix [] inverse sv
  = (inl (LightningException msg_wires_empty), sv) /\
  applyMatrix_ptr matrix [] inverse sv
  = (inl (LightningException msg_wires_empty), sv) /\
  applyControlledMatrix_ptr matrix controlled_wires controlled_values []
    inverse sv
  = (inl (LightningException msg_wires_empty), sv) /\
  applyControlledMatrix matrix controlled_wires controlled_values []
    inverse sv
  = (inl (LightningException msg_wires_empty), sv) /\
  applyMatrix_kernel kernel matrix [] inverse sv
  = (inl (LightningException
            (if length matrix =? 1 then msg_wires_empty
             else msg_matrix_size)), sv) /\
  applyMatrix matrix [] inverse sv
  = (inl (LightningException
            (if length matrix =? 1 then msg_wires_empty
             else msg_matrix_size)), sv).
Proof.
  repeat split; try reflexivity.
  - unfold applyMatrix_kernel, bind at 1, PL_ABORT_IF.
    change (exp2 (2 * length (@nil nat))) with 1.
    destruct (length matrix =? 1); reflexivity.
  - unfold applyMatrix, bind at 1, PL_ABORT_IF.
    change (exp2 (2 * length (@nil nat))) with 1.
    destruct (length matrix =? 1); reflexivity.
Qed.


End Dispatch.

(** ** Claim on the generators *)

Section GeneratorClaims.
Context `{Impl : GateImplementation}.

Lemma returning_normally (coefficient : R) (o : Outcome unit) :
  fst o = inr tt ->
  fst (PauliGenerator.returning coefficient o) = inr coefficient.
Proof.
  destruct o as [[e|u] arr]; simpl; intros Ho; [discriminate|reflexivity].
Qed.

(** C7: whatever the buffer, the number of qubits, the wires and the
    adjoint flag, the generators of RX, RY and RZ return exactly -1/2 once
    their Pauli kernel has returned. *)
Theorem pauli_generators_return_minus_half (data : Buffer)
  (num_qubits : nat) (wires : list nat) (adj : bool) :
  (fst (applyPauliX data num_qubits wires adj) = inr tt ->
   fst (PauliGenerator.applyGeneratorRX data num_qubits wires adj)
   = inr (- (1 / 2))%R) /\
  (fst (applyPauliY data num_qubits wires adj) = inr tt ->
   fst (PauliGenerator.applyGeneratorRY data num_qubits wires adj)
   = inr (- (1 / 2))%R) /\
  (fst (applyPauliZ data num_qubits wires adj) = inr tt ->
   fst (PauliGenerator.applyGeneratorRZ data num_qubits wires adj)
   = inr (- (1 / 2))%R).
Proof.
  assert (Hhalf : (- 0.5 = - (1 / 2))%R) by lra.
  unfold PauliGenerator.applyGeneratorRX, PauliGenerator.applyGeneratorRY,
    PauliGenerator.applyGeneratorRZ.
  rewrite Hhalf.
  repeat split; apply returning_normally.
Qed.

End GeneratorClaims.

(** ** The entry points on concrete inputs *)

Section Runs.
#[local] Existing Instance Demo.ops.
#[local] Existing Instance Demo.dispatcher.
#[local] Existing Instance Demo.engine.
#[local] Existing Instance Demo.double_precision.

Lemma pow_2_52 : (2 ^ 52 = 4503599627370496)%R.
Proof. simpl. lra. Qed.


Lemma epsilon_double_bounds : (0 < epsilon_double * 100 < 1)%R.
Proof. unfold epsilon_double. rewrite pow_2_52. lra. Qed.

Lemma prob_0_of_zero1 : prob_0_of 0 Demo.zero1 = 1%R.
Proof.
  unfold prob_0_of, probs, for_loop, Cnorm. simpl. lra.
Qed.

Lemma draw_of_zero1 : fst (draw_of 0 Demo.zero1) = false.
Proof.
  unfold draw_of. rewrite prob_0_of_zero1. simpl.
  destruct (Rlt_dec _ _) as [_|Hn]; [reflexivity|].
  exfalso. apply Hn. lra.
Qed.


Lemma norm_kept_zero1 :
  sqrt (squaredNorm (keep_branch 1 0 false (data Demo.zero1))
          (length (keep_branch 1 0 false (data Demo.zero1)))) = 1%R.
Proof.
  rewrite squaredNorm_keep_branch.
  replace (weight _ _) with 1%R; [apply sqrt_1|].
  unfold weight, Cnorm. simpl. lra.
Qed.

(** Witness of C1. *)
Lemma measure_postselect_mismatch_zeroes_witness :
  fst (measure 0 1 false Demo.zero1) = inr (-1)%Z /\
  data (snd (measure 0 1 false Demo.zero1)) = replicate 2 Czero.
Proof.
  apply (measure_postselect_mismatch_zeroes Demo.zero1 0 1 false).
  - simpl. lia.
  - right. reflexivity.
  - rewrite draw_of_zero1. discriminate.
Defined.

(** C1 as stated fails: the wire is in the register, the draw is 0 and the
    postselect value is 1, and the state that is left is not the basis
    state at index 0. *)
Lemma measure_postselect_mismatch_counterexample :
  0 < num_qubits_ Demo.zero1 /\
  Z.b2z (fst (draw_of 0 Demo.zero1)) <> 1%Z /\
  ~ (fst (measure 0 1 false Demo.zero1) = inr (-1)%Z /\
     data (snd (measure 0 1 false Demo.zero1)) = basis_state 2 0).
Proof.
  split; [simpl; lia|]. split; [rewrite draw_of_zero1; discriminate|].
  rewrite measure_mismatch
    by (try discriminate; rewrite draw_of_zero1; discriminate).
  intros [_ Hdata]. simpl in Hdata. injection Hdata as Hre. lra.
Qed.


(** Witness of C4. *)
Lemma collapse_zeroes_then_rescales_witness :
  let kept := keep_branch 1 0 false (data Demo.zero1) in
  let norm := sqrt (squaredNorm kept (length kept)) in
  (norm > epsilon * 100)%R /\
  collapse 0 false Demo.zero1
  = (inr tt, set_data (rescale (1 / norm) kept) Demo.zero1).
Proof.
  intros kept norm.
  assert (Hw : 0 < num_qubits_ Demo.zero1) by (simpl; lia).
  assert (Hbig : (norm > epsilon * 100)%R).
  { unfold norm, kept. rewrite norm_kept_zero1.
    apply epsilon_double_bounds. }
  split; [exact Hbig|].
  exact (proj1 (proj2 (collapse_zeroes_then_rescales Demo.zero1 0 false
                         Hw eq_refl)) Hbig).
Defined.







(** Witness of C9. *)
Lemma seeded_sampling_is_deterministic_witness :
  fst (bind (seed 7)
            (fun _ => measure_repeatedly 3 0 (-1) true) Demo.zero1)
  = fst (bind (seed 7)
              (fun _ => measure_repeatedly 3 0 (-1) true) Demo.zero1').
Proof.
  apply (seeded_sampling_is_deterministic Demo.zero1 Demo.zero1').
  - reflexivity.
  - reflexivity.
  - intros _ gate_op. reflexivity.
Defined.

(** Witness of C7. *)
Lemma pauli_generators_return_minus_half_witness :
  fst (@PauliGenerator.applyGeneratorRX Demo.impl [Cone; Czero] 1 [0] false)
  = inr (- (1 / 2))%R /\
  fst (@PauliGenerator.applyGeneratorRY Demo.impl [Cone; Czero] 1 [0] false)
  = inr (- (1 / 2))%R /\
  fst (@PauliGenerator.applyGeneratorRZ Demo.impl [Cone; Czero] 1 [0] false)
  = inr (- (1 / 2))%R.
Proof.
  destruct (@pauli_generators_return_minus_half Demo.impl [Cone; Czero] 1
              [0] false) as (HX & HY & HZ).
  repeat split; [apply HX|apply HY|apply HZ]; reflexivity.
Defined.

(** Witness of C2. *)
Lemma controlled_matrix_path_witness :
  applyControlledMatrix Demo.identity1 [0] [true] [1] false Demo.zero2
  = bind (getKernelForControlledMatrix (sized_controlled_matrix_op 1))
         (fun kernel => dispatch (fun arr nq =>
            DynamicDispatcher.applyControlledMatrix kernel arr nq
              Demo.identity1 [0] [true] [1] false)) Demo.zero2 /\
  applyOperation_controlled_matrix "QubitUnitary" [0] [true] [1] false []
    Demo.identity1 Demo.zero2
  = applyOperation_controlled "QubitUnitary" [0] [true] [1] false []
      Demo.zero2.
Proof.
  destruct (controlled_matrix_path Demo.zero2 "QubitUnitary" Demo.identity1
              [0] [true] [1] false []) as (_ & Hmatrix & Hnamed).
  split.
  - apply Hmatrix; [discriminate|reflexivity].
  - apply Hnamed. discriminate.
Defined.

(** C2 as stated fails: the control list is not empty and the name has no
    controlled gate, and [applyOperation] with the matrix is not the
    controlled-matrix call: it ends in the name lookup. *)
Lemma controlled_matrix_path_counterexample :
  [0] <> @nil nat /\
  DynamicDispatcher.strToControlledGateOp "QubitUnitary" = inl out_of_range /\
  fst (applyOperation_controlled_matrix "QubitUnitary" [0] [true] [1] false
         [] Demo.identity1 Demo.zero2) = inl out_of_range /\
  fst (applyControlledMatrix Demo.identity1 [0] [true] [1] false Demo.zero2)
  = inr tt /\
  applyOperation_controlled_matrix "QubitUnitary" [0] [true] [1] false []
    Demo.identity1 Demo.zero2
  <> applyControlledMatrix Demo.identity1 [0] [true] [1] false Demo.zero2.
Proof.
  assert (Hnamed :
    fst (applyOperation_controlled_matrix "QubitUnitary" [0] [true] [1]
           false [] Demo.identity1 Demo.zero2) = inl out_of_range)
    by reflexivity.
  assert (Hmatrix :
    fst (applyControlledMatrix Demo.identity1 [0] [true] [1] false
           Demo.zero2) = inr tt).
  { rewrite (applyControlledMatrix_unchecked _ _ _ _ _ _ Demo.kernel);
      [reflexivity|discriminate|reflexivity|reflexivity]. }
  split; [discriminate|]. split; [reflexivity|].
  split; [exact Hnamed|]. split; [exact Hmatrix|].
  intros Heq. rewrite Heq, Hmatrix in Hnamed. discriminate.
Qed.

(** C5 at the failing input: a matrix of one element for one target wire.
    The vector overload of [applyControlledMatrix] does not reject it: the
    call reaches the kernel and returns normally. *)
Theorem applyControlledMatrix_accepts_wrong_size :
  length [Cone] <> exp2 (2 * length [1]) /\
  applyControlledMatrix [Cone] [0] [true] [1] false Demo.zero2
  = dispatch (fun arr nq =>
      DynamicDispatcher.applyControlledMatrix Demo.kernel arr nq [Cone] [0]
        [true] [1] false) Demo.zero2 /\
  fst (applyControlledMatrix [Cone] [0] [true] [1] false Demo.zero2)
  = inr tt.
Proof.
  split; [discriminate|].
  assert (Hcall :
    applyControlledMatrix [Cone] [0] [true] [1] false Demo.zero2
    = dispatch (fun arr nq =>
        DynamicDispatcher.applyControlledMatrix Demo.kernel arr nq [Cone]
          [0] [true] [1] false) Demo.zero2).
  { apply applyControlledMatrix_unchecked;
      [discriminate|reflexivity|reflexivity]. }
  split; [exact Hcall|]. rewrite Hcall. reflexivity.
Qed.




(** C10 as stated fails: with no wires and a matrix that does not have
    exactly one element, the vector overload of [applyMatrix] reports the
    size mismatch, not the missing wires. *)
Lemma apply_matrix_without_wires_counterexample :
  fst (applyMatrix [] [] false Demo.zero1)
  <> inl (LightningException msg_wires_empty) /\
  snd (applyMatrix [] [] false Demo.zero1) = Demo.zero1.
Proof.
  split; [|reflexivity].
  change (fst (applyMatrix [] [] false Demo.zero1))
    with (@inl Exception unit (LightningException msg_matrix_size)).
  intros H. injection H as H. discriminate H.
Qed.

(** With the generator of RX registered in the dispatcher, the state-vector
    entry point returns the coefficient of the generator and flips the
    wire. *)
Example applyGenerator_RX_on_zero1 :
  applyGenerator "RX" [0] false Demo.zero1
  = (inr (- 0.5)%R, set_data [Czero; Cone] Demo.zero1).
Proof.
  rewrite (applyGenerator_returns_kernel_scalar Demo.zero1 _ _ _
             ("RX"%string : @GeneratorOperation Demo.ops) Demo.kernel)
    by reflexivity.
  reflexivity.
Qed.

(** The default call [measure(0)] on the basis state 0: the sample is 0 and
    the amplitudes are rescaled by the reciprocal of their norm. *)
Example measure_zero1 :
  fst (measure 0 (-1) false Demo.zero1) = inr 0%Z.
Proof.
  unfold measure.
  rewrite (bind_returns _ _ _ _ _ (probs_returns 0 Demo.zero1)).
  cbn [nth].
  rewrite (bind_returns _ _ _ _ _ (random_sample_draws 0 Demo.zero1)).
  rewrite draw_of_zero1. cbv [Z.b2z Z.eqb Pos.eqb negb andb].
  unfold bind.
  destruct (collapse 0 false (set_rng (snd (draw_of 0 Demo.zero1)) Demo.zero1))
    as [[e|[]] sv'] eqn:Hc.
  - unfold collapse, normalize in Hc.
    destruct (Rgt_dec _ _) in Hc; discriminate Hc.
  - reflexivity.
Qed.

End Runs.

(** * Further properties of the measurement functions *)

Section MeasurementExtras.
Context `{Ops : Operations} `{Disp : !DynamicDispatcher.t}
        `{Rng : RandomEngine} `{Lim : NumericLimits}.

Lemma Cmult_Czero (factor : R) : Cmult Czero (mkComplex factor 0) = Czero.
Proof. unfold Cmult, Czero. simpl. f_equal; ring. Qed.

Lemma length_norm_step (arr : Buffer) : length (norm_step arr) = length arr.
Proof.
  unfold norm_step. destruct (Rgt_dec _ _); [apply length_rescale|reflexivity].
Qed.

Lemma collapse_norm_step (sv : StateVectorLQubit) (wire : nat)
  (branch : bool) :
  wire < num_qubits_ sv ->
  length (data sv) = 2 ^ num_qubits_ sv ->
  collapse wire branch sv
  = (inr tt,
     set_data (norm_step (keep_branch (num_qubits_ sv) wire branch (data sv)))
              sv).
Proof.
  intros Hw Hlen. rewrite (collapse_rescales sv wire branch Hw Hlen).
  reflexivity.
Qed.

Lemma keep_branch_norm_step (num_qubits wire : nat) (branch : bool)
  (arr : Buffer) :
  keep_branch num_qubits wire branch
    (norm_step (keep_branch num_qubits wire branch arr))
  = norm_step (keep_branch num_qubits wire branch arr).
Proof.
  set (kept := keep_branch num_qubits wire branch arr).
  assert (Hkept : forall i z, kept !! i = Some z ->
            Bool.eqb (wire_bit num_qubits wire i) branch = false ->
            z = Czero).
  { intros i z Hz Hbit. unfold kept, keep_branch in Hz.
    rewrite list_lookup_imap in Hz.
    destruct (arr !! i) as [z'|]; simpl in Hz; [|discriminate].
    rewrite Hbit in Hz. congruence. }
  apply list_eq. intros i. unfold keep_branch at 1.
  rewrite list_lookup_imap. unfold norm_step.
  destruct (Rgt_dec _ _) as [_|_].
  - unfold rescale. change (map ?f ?l) with (f <$> l).
    rewrite list_lookup_fmap.
    destruct (kept !! i) as [z|] eqn:Hz; simpl; [|reflexivity].
    destruct (Bool.eqb (wire_bit num_qubits wire i) branch) eqn:Hbit;
      [reflexivity|].
    rewrite (Hkept i z Hz Hbit), Cmult_Czero. reflexivity.
  - destruct (kept !! i) as [z|] eqn:Hz; simpl; [|reflexivity].
    destruct (Bool.eqb (wire_bit num_qubits wire i) branch) eqn:Hbit;
      [reflexivity|].
    rewrite (Hkept i z Hz Hbit). reflexivity.
Qed.

Lemma collapsed_other_branch_zero (num_qubits wire : nat) (branch : bool)
  (arr : Buffer) (i : nat) :
  wire_bit num_qubits wire i <> branch ->
  nth i (norm_step (keep_branch num_qubits wire branch arr)) Czero = Czero.
Proof.
  intros Hbit. rewrite <- keep_branch_norm_step, nth_keep_branch.
  destruct (Bool.eqb (wire_bit num_qubits wire i) branch) eqn:Heq;
    [|reflexivity].
  apply Bool.eqb_prop in Heq. contradiction.
Qed.

(** X4: after [collapse], every amplitude whose wire bit disagrees with the
    branch is zero, whether or not the buffer was rescaled, and the buffer
    has kept its length. *)
Theorem collapse_clears_other_branch (sv : StateVectorLQubit) (wire : nat)
  (branch : bool) :
  wire < num_qubits_ sv ->
  length (data sv) = 2 ^ num_qubits_ sv ->
  length (data (snd (collapse wire branch sv))) = length (data sv) /\
  forall i, wire_bit (num_qubits_ sv) wire i <> branch ->
            nth i (data (snd (collapse wire branch sv))) Czero = Czero.
Proof.
  intros Hw Hlen. rewrite collapse_norm_step by assumption.
  cbn [snd data set_data]. split.
  - rewrite length_norm_step. apply length_keep_branch.
  - intros i Hbit. apply collapsed_other_branch_zero. exact Hbit.
Qed.

End MeasurementExtras.

(** ** [measure] and [applyMidMeasureMP] *)

Section MeasureExtras.
Context `{Ops : Operations} `{Disp : !DynamicDispatcher.t}
        `{Rng : RandomEngine} `{Lim : NumericLimits}.

Lemma collapse_returns (sv : StateVectorLQubit) (wire : nat) (branch : bool) :
  collapse wire branch sv = (inr tt, snd (collapse wire branch sv)).
Proof. unfold collapse, normalize. destruct (Rgt_dec _ _); reflexivity. Qed.

Lemma branch_of_sample (index : bool) :
  negb (Z.b2z index =? 0)%Z = index.
Proof. destruct index; reflexivity. Qed.

(** The branch of [measure] that keeps the drawn sample, when no gate is
    applied afterwards. *)
Lemma measure_agreeing (sv : StateVectorLQubit) (wire : nat) (postselect : Z)
  (reset : bool) :
  (postselect = (-1)%Z \/ postselect = Z.b2z (fst (draw_of wire sv))) ->
  (reset = false \/ fst (draw_of wire sv) = false) ->
  measure wire postselect reset sv
  = (inr (Z.b2z (fst (draw_of wire sv))),
     snd (collapse wire (fst (draw_of wire sv))
            (set_rng (snd (draw_of wire sv)) sv))).
Proof.
  intros Hps Hreset. unfold measure.
  rewrite (bind_returns _ _ _ _ _ (probs_returns wire sv)).
  cbn [nth].
  rewrite (bind_returns _ _ _ _ _ (random_sample_draws wire sv)).
  set (index := fst (draw_of wire sv)) in *.
  assert (Hcond : negb (postselect =? -1)%Z
                  && negb (postselect =? Z.b2z index)%Z = false).
  { destruct Hps as [->| ->].
    - reflexivity.
    - rewrite Z.eqb_refl. apply andb_false_r. }
  rewrite Hcond, branch_of_sample.
  assert (Hgate : reset && (Z.b2z index =? 1)%Z = false).
  { destruct Hreset as [->| ->]; [reflexivity|apply andb_false_r]. }
  rewrite Hgate.
  rewrite (bind_returns _ _ _ _ _ (collapse_returns _ wire index)).
  reflexivity.
Qed.

(** The value [measure] returns without a reset. *)
Lemma measure_value (sv : StateVectorLQubit) (wire : nat) (postselect : Z) :
  let sample := Z.b2z (fst (draw_of wire sv)) in
  fst (measure wire postselect false sv)
  = inr (if negb (postselect =? -1)%Z && negb (postselect =? sample)%Z
         then (-1)%Z else sample).
Proof.
  intros sample.
  destruct (negb (postselect =? -1)%Z && negb (postselect =? sample)%Z)
    eqn:Hcond.
  - apply andb_true_iff in Hcond as [H1 H2].
    apply negb_true_iff, Z.eqb_neq in H1, H2.
    rewrite measure_mismatch by assumption. reflexivity.
  - rewrite measure_agreeing; [reflexivity| |left; reflexivity].
    apply andb_false_iff in Hcond as [H|H];
      apply negb_false_iff, Z.eqb_eq in H; [left|right]; exact H.
Qed.

(** X6: on a wire of the register and without a reset, [measure] never
    throws; it returns -1 exactly when a postselect value other than -1
    disagrees with the drawn sample, and the drawn sample (0 or 1)
    otherwise. *)
Theorem measure_returns_sample_or_marker (sv : StateVectorLQubit)
  (wire : nat) (postselect : Z) :
  wire < num_qubits_ sv ->
  length (data sv) = 2 ^ num_qubits_ sv ->
  let sample := Z.b2z (fst (draw_of wire sv)) in
  exists value,
    fst (measure wire postselect false sv) = inr value /\
    (value = (-1)%Z \/ value = 0%Z \/ value = 1%Z) /\
    (value = (-1)%Z <-> postselect <> (-1)%Z /\ postselect <> sample) /\
    (value <> (-1)%Z -> value = sample).
Proof.
  intros _ _ sample. pose proof (measure_value sv wire postselect) as Hv.
  cbv zeta in Hv. fold sample in Hv.
  assert (Hs : sample = 0%Z \/ sample = 1%Z).
  { unfold sample. destruct (fst (draw_of wire sv)); [right|left];
      reflexivity. }
  destruct (negb (postselect =? -1)%Z && negb (postselect =? sample)%Z)
    eqn:Hcond; eexists; (split; [exact Hv|]).
  - apply andb_true_iff in Hcond as [H1 H2].
    apply negb_true_iff, Z.eqb_neq in H1, H2.
    split; [left; reflexivity|]. split; [tauto|].
    intros Hne. contradiction.
  - apply andb_false_iff in Hcond.
    split; [right; exact Hs|]. split; [|intros _; reflexivity].
    split.
    + intros Hm. lia.
    + intros [H1 H2]. destruct Hcond as [H|H];
        apply negb_false_iff, Z.eqb_eq in H; contradiction.
Qed.

(** X7: the reset flag changes nothing when the drawn sample is 0: no gate
    is applied and the dispatcher is not called. *)
Theorem measure_reset_only_acts_on_one (sv : StateVectorLQubit)
  (wire : nat) (postselect : Z) :
  fst (draw_of wire sv) = false ->
  measure wire postselect true sv = measure wire postselect false sv.
Proof.
  intros Hzero.
  destruct (negb (postselect =? -1)%Z
            && negb (postselect =? Z.b2z (fst (draw_of wire sv)))%Z)
    eqn:Hcond.
  - apply andb_true_iff in Hcond as [H1 H2].
    apply negb_true_iff, Z.eqb_neq in H1, H2.
    rewrite !measure_mismatch by assumption. reflexivity.
  - assert (Hps : postselect = (-1)%Z
                  \/ postselect = Z.b2z (fst (draw_of wire sv))).
    { apply andb_false_iff in Hcond as [H|H];
        apply negb_false_iff, Z.eqb_eq in H; [left|right]; exact H. }
    rewrite !measure_agreeing; auto.
Qed.

(** After [collapse] to branch 1, [probs] on the same wire finds nothing
    on branch 0. *)
Lemma probs_after_collapse_to_one (sv : StateVectorLQubit) (wire : nat) :
  wire < num_qubits_ sv ->
  length (data sv) = 2 ^ num_qubits_ sv ->
  fst (probs wire (snd (collapse wire true sv))) = inr [0; 1]%R.
Proof.
  intros Hw Hlen.
  rewrite collapse_norm_step by assumption. cbn [snd].
  set (n := num_qubits_ sv) in *.
  set (arr := norm_step (keep_branch n wire true (data sv))).
  assert (Hlen' : length arr = length (data sv)).
  { unfold arr. rewrite length_norm_step. apply length_keep_branch. }
  rewrite probs_weight; cbn [num_qubits_ data set_data]; fold n;
    [|exact Hw|rewrite Hlen'; exact Hlen].
  cbn [fst].
  assert (Hzero : weight (fun i => negb (wire_bit n wire i)) arr = 0%R).
  { rewrite (weight_scaled _ arr arr 0 eq_refl); [ring|].
    intros i _ Hs. apply negb_true_iff in Hs. unfold arr.
    rewrite collapsed_other_branch_zero by (rewrite Hs; discriminate).
    rewrite Cnorm_Czero. ring. }
  rewrite Hzero. replace (1 - 0)%R with 1%R by ring. reflexivity.
Qed.

(** X8: a wire measured as 1 is definite: when [measure] draws the sample 1
    and keeps it (no postselect value, or the value 1, and no reset),
    [probs] on the same wire then yields (0, 1): every amplitude of branch 0
    has been set to zero, whether or not the buffer was rescaled. *)
Theorem measured_one_then_probs_certain (sv : StateVectorLQubit)
  (wire : nat) (postselect : Z) :
  wire < num_qubits_ sv ->
  length (data sv) = 2 ^ num_qubits_ sv ->
  fst (draw_of wire sv) = true ->
  (postselect = (-1)%Z \/ postselect = 1%Z) ->
  fst (bind (measure wire postselect false) (fun _ => probs wire) sv)
  = inr [0; 1]%R.
Proof.
  intros Hw Hlen Hone Hps.
  assert (Hagree : postselect = (-1)%Z
                   \/ postselect = Z.b2z (fst (draw_of wire sv))).
  { rewrite Hone. exact Hps. }
  rewrite (bind_returns _ _ _ _ _
             (measure_agreeing sv wire postselect false Hagree
                (or_introl eq_refl))).
  rewrite Hone.
  apply (probs_after_collapse_to_one (set_rng (snd (draw_of wire sv)) sv));
    assumption.
Qed.

(** X9: without a reset, [measure] keeps the invariant of the object: the
    buffer still has [2 ^ num_qubits_] amplitudes, and nothing but the
    buffer and the random engine has changed. *)
Theorem measure_keeps_shape (sv : StateVectorLQubit) (wire : nat)
  (postselect : Z) :
  wire < num_qubits_ sv ->
  length (data sv) = 2 ^ num_qubits_ sv ->
  let sv' := snd (measure wire postselect false sv) in
  length (data sv') = 2 ^ num_qubits_ sv' /\
  sv' = set_data (data sv') (set_rng (rng sv') sv).
Proof.
  intros Hw Hlen sv'. unfold sv'. clear sv'.
  destruct (negb (postselect =? -1)%Z
            && negb (postselect =? Z.b2z (fst (draw_of wire sv)))%Z)
    eqn:Hcond.
  - apply andb_true_iff in Hcond as [H1 H2].
    apply negb_true_iff, Z.eqb_neq in H1, H2.
    rewrite measure_mismatch by assumption.
    cbn [snd data set_data set_rng num_qubits_ rng].
    split; [rewrite length_replicate; exact Hlen|reflexivity].
  - assert (Hps : postselect = (-1)%Z
                  \/ postselect = Z.b2z (fst (draw_of wire sv))).
    { apply andb_false_iff in Hcond as [H|H];
        apply negb_false_iff, Z.eqb_eq in H; [left|right]; exact H. }
    rewrite measure_agreeing by auto. cbn [snd].
    rewrite (collapse_norm_step (set_rng (snd (draw_of wire sv)) sv))
      by assumption.
    cbn [snd data set_data set_rng num_qubits_ rng].
    split; [|reflexivity].
    rewrite length_norm_step, length_keep_branch. exact Hlen.
Qed.

(** X10: [applyMidMeasureMP] rejects a wire list that does not hold exactly
    one wire and a postselect list of more than one value, in this order,
    and leaves the object as it was. *)
Theorem applyMidMeasureMP_rejects (sv : StateVectorLQubit)
  (wires postselect : list nat) (reset : bool) :
  (length wires <> 1 ->
   applyMidMeasureMP wires postselect reset sv
   = (inl (LightningException msg_single_wire), sv)) /\
  (length wires = 1 -> 1 < length postselect ->
   applyMidMeasureMP wires postselect reset sv
   = (inl (LightningException msg_one_postselect), sv)).
Proof.
  unfold applyMidMeasureMP, bind, PL_ABORT_IF_NOT, PL_ABORT_IF. split.
  - intros Hw. apply Nat.eqb_neq in Hw. rewrite Hw. reflexivity.
  - intros Hw Hp. apply Nat.eqb_eq in Hw. apply Nat.ltb_lt in Hp.
    rewrite Hw. cbn [negb ret]. rewrite Hp. reflexivity.
Qed.

Lemma size_t_to_int_small (z : Z) :
  (0 <= z < 2 ^ 31)%Z -> size_t_to_int z = z.
Proof.
  intros Hz. unfold size_t_to_int.
  rewrite Z.mod_small by lia. lia.
Qed.

Lemma size_t_to_int_max : size_t_to_int (2 ^ 64 - 1) = (-1)%Z.
Proof. reflexivity. Qed.

(** X11: on one wire, [applyMidMeasureMP] is [measure]: an empty postselect
    list travels as the largest [size_t] and arrives as the value -1 that
    [measure] ignores; one postselect value below [2 ^ 31] arrives as
    itself. *)
Theorem applyMidMeasureMP_is_measure (sv : StateVectorLQubit) (wire : nat)
  (reset : bool) :
  applyMidMeasureMP [wire] [] reset sv = measure wire (-1) reset sv /\
  (forall p, (Z.of_nat p < 2 ^ 31)%Z ->
     applyMidMeasureMP [wire] [p] reset sv
     = measure wire (Z.of_nat p) reset sv).
Proof.
  split.
  - reflexivity.
  - intros p Hp.
    unfold applyMidMeasureMP, bind, PL_ABORT_IF_NOT, PL_ABORT_IF.
    cbn [length Nat.eqb Nat.ltb Nat.leb negb ret nth].
    rewrite size_t_to_int_small by lia. reflexivity.
Qed.

(** X12: the postselect value of [applyMidMeasureMP] is narrowed from
    [size_t] to [int]: a value and the same value plus a multiple of
    [2 ^ 32] act alike. *)
Theorem applyMidMeasureMP_narrows_postselect (sv : StateVectorLQubit)
  (wire p k : nat) (reset : bool) :
  applyMidMeasureMP [wire] [p + k * 2 ^ 32] reset sv
  = applyMidMeasureMP [wire] [p] reset sv.
Proof.
  unfold applyMidMeasureMP, bind, PL_ABORT_IF_NOT, PL_ABORT_IF.
  cbn [length Nat.eqb Nat.ltb Nat.leb negb ret nth].
  f_equal. unfold size_t_to_int.
  rewrite Nat2Z.inj_add, Nat2Z.inj_mul, Nat2Z.inj_pow.
  change (Z.of_nat 2 ^ Z.of_nat 32)%Z with (2 ^ 32)%Z.
  replace (Z.of_nat p + Z.of_nat k * 2 ^ 32 + 2 ^ 31)%Z
    with (Z.of_nat p + 2 ^ 31 + Z.of_nat k * 2 ^ 32)%Z by ring.
  rewrite Z_mod_plus_full. reflexivity.
Qed.

End MeasureExtras.

(** ** [probs] on a computational basis state *)

Section BasisStateExtras.
Context `{Ops : Operations} `{Disp : !DynamicDispatcher.t}
        `{Rng : RandomEngine} `{Lim : NumericLimits}.

Lemma Rsum_indicator (idx : nat) (l : list nat) :
  NoDup l ->
  Rsum (map (fun i => if Nat.eqb i idx then 1%R else 0%R) l)
  = if decide (idx ∈ l) then 1%R else 0%R.
Proof.
  induction l as [|i l IH]; intros Hnd.
  - simpl. destruct (decide (idx ∈ [])) as [Hin|_]; [inversion Hin|].
    reflexivity.
  - apply NoDup_cons in Hnd as [Hni Hnd]. simpl. rewrite (IH Hnd).
    destruct (Nat.eqb_spec i idx) as [->|Hne].
    + rewrite (decide_True (P := idx ∈ idx :: l))
        by (apply elem_of_cons; left; reflexivity).
      rewrite (decide_False (P := idx ∈ l)) by exact Hni. ring.
    + destruct (decide (idx ∈ l)) as [Hin|Hnin].
      * rewrite (decide_True (P := idx ∈ i :: l))
          by (apply elem_of_cons; right; exact Hin).
        ring.
      * rewrite (decide_False (P := idx ∈ i :: l)).
        -- ring.
        -- intros Hin. apply elem_of_cons in Hin as [Heq|Hin];
             [congruence|contradiction].
Qed.

Lemma nth_basis_state (len index i : nat) :
  index < len ->
  nth i (basis_state len index) Czero
  = if Nat.eqb i index then Cone else Czero.
Proof.
  intros Hidx. unfold basis_state. rewrite nth_lookup, list_lookup_insert.
  rewrite length_replicate.
  destruct (Nat.eqb_spec i index) as [->|Hne].
  - rewrite decide_True by (split; [reflexivity|exact Hidx]). reflexivity.
  - rewrite decide_False by (intros [Heq _]; congruence).
    destruct (replicate len Czero !! i) as [z|] eqn:Hz; [|reflexivity].
    apply lookup_replicate in Hz as [-> _]. reflexivity.
Qed.

Lemma weight_basis_state (select : nat -> bool) (len index : nat) :
  index < len ->
  weight select (basis_state len index)
  = if select index then 1%R else 0%R.
Proof.
  intros Hidx. rewrite weight_Rsum.
  assert (Hlen : length (basis_state len index) = len).
  { unfold basis_state. rewrite length_insert. apply length_replicate. }
  rewrite Hlen.
  rewrite (map_ext _ (fun i => if Nat.eqb i index then 1%R else 0%R)).
  2:{ intros i. rewrite nth_basis_state by exact Hidx.
      destruct (Nat.eqb i index); unfold Cnorm; simpl; ring. }
  rewrite Rsum_indicator by (apply NoDup_filter, NoDup_seq).
  destruct (select index) eqn:Hs.
  - rewrite decide_True; [reflexivity|].
    apply list_elem_of_filter. split; [exact Hs|].
    apply elem_of_seq. lia.
  - rewrite decide_False; [reflexivity|].
    intros Hin. apply list_elem_of_filter in Hin as [Hs' _]. congruence.
Qed.

(** X13: on a computational basis state, [probs] reads the wire bit of the
    index: (1, 0) if the bit of the wire is 0 and (0, 1) if it is 1, wire 0
    being the most significant bit. *)
Theorem probs_of_basis_state (sv : StateVectorLQubit) (wire index : nat) :
  wire < num_qubits_ sv ->
  index < 2 ^ num_qubits_ sv ->
  data sv = basis_state (2 ^ num_qubits_ sv) index ->
  probs wire sv
  = (inr (if Nat.testbit index (num_qubits_ sv - 1 - wire)
          then [0; 1]%R else [1; 0]%R), sv).
Proof.
  intros Hw Hidx Hdata.
  assert (Hlen : length (data sv) = 2 ^ num_qubits_ sv).
  { rewrite Hdata. unfold basis_state. rewrite length_insert.
    apply length_replicate. }
  rewrite (probs_weight sv wire Hw Hlen), Hdata.
  rewrite weight_basis_state by exact Hidx.
  rewrite <- wire_bit_testbit.
  destruct (wire_bit (num_qubits_ sv) wire index); simpl.
  - replace (1 - 0)%R with 1%R by ring. reflexivity.
  - replace (1 - 1)%R with 0%R by ring. reflexivity.
Qed.

End BasisStateExtras.

(** * Further properties of operation application *)

Section DispatchExtras.
Context `{Ops : Operations} `{Disp : !DynamicDispatcher.t}
        `{Rng : RandomEngine} `{Lim : NumericLimits}.

Lemma buffer_only_ret {A} (a : A) : buffer_only (ret a).
Proof. intros sv. destruct sv. reflexivity. Qed.

Lemma buffer_only_throw {A} (e : Exception) : buffer_only (@throw _ _ A e).
Proof. intros sv. destruct sv. reflexivity. Qed.

Lemma buffer_only_bind {A B} (m : M A) (k : A -> M B) :
  buffer_only m -> (forall a, buffer_only (k a)) -> buffer_only (bind m k).
Proof.
  intros Hm Hk sv. unfold bind. specialize (Hm sv).
  destruct (m sv) as [[e|a] sv1]; cbn [snd] in *; [exact Hm|].
  rewrite (Hk a sv1). generalize (data (snd (k a sv1))). intros arr.
  rewrite Hm. reflexivity.
Qed.

Lemma buffer_only_abort (cond : bool) (message : string) :
  buffer_only (PL_ABORT_IF cond message)
  /\ buffer_only (PL_ABORT_IF_NOT cond message).
Proof.
  unfold PL_ABORT_IF_NOT, PL_ABORT_IF.
  split; destruct cond; simpl;
    first [apply buffer_only_throw | apply buffer_only_ret].
Qed.

Lemma buffer_only_lookup_op {A} (r : Exception + A) :
  buffer_only (lookup_op r).
Proof.
  destruct r; [apply buffer_only_throw|apply buffer_only_ret].
Qed.

Lemma buffer_only_at {K V} (get : StateVectorLQubit -> K -> option V)
  (k : K) :
  buffer_only (fun sv => at_ (get sv) k sv).
Proof.
  intros sv. unfold at_. destruct (get sv k);
    [apply buffer_only_ret|apply buffer_only_throw].
Qed.

Lemma buffer_only_dispatch {A} (call : Buffer -> nat -> Outcome A) :
  buffer_only (dispatch call).
Proof.
  intros sv. unfold dispatch.
  destruct (call (data sv) (num_qubits_ sv)) as [r arr]. reflexivity.
Qed.

Ltac buffer_only_step :=
  first
    [ apply buffer_only_bind; [|intros ?]
    | apply (proj1 (buffer_only_abort _ _))
    | apply (proj2 (buffer_only_abort _ _))
    | apply buffer_only_dispatch
    | apply buffer_only_lookup_op
    | apply buffer_only_ret
    | apply (buffer_only_at kernel_for_gates_)
    | apply (buffer_only_at kernel_for_controlled_gates_)
    | apply (buffer_only_at kernel_for_generators_)
    | apply (buffer_only_at kernel_for_controlled_generators_)
    | apply (buffer_only_at kernel_for_matrices_)
    | apply (buffer_only_at kernel_for_controlled_matrices_) ].

Lemma buffer_only_applyOperation opName wires inverse params :
  buffer_only (applyOperation opName wires inverse params).
Proof. unfold applyOperation. repeat buffer_only_step. Qed.

Lemma buffer_only_applyOperation_controlled opName cw cv wires inverse
  params :
  buffer_only (applyOperation_controlled opName cw cv wires inverse params).
Proof. unfold applyOperation_controlled. repeat buffer_only_step. Qed.

Lemma buffer_only_applyMatrix_kernel_ptr kernel matrix wires inverse :
  buffer_only (applyMatrix_kernel_ptr kernel matrix wires inverse).
Proof. unfold applyMatrix_kernel_ptr. repeat buffer_only_step. Qed.

Lemma buffer_only_applyMatrix_ptr matrix wires inverse :
  buffer_only (applyMatrix_ptr matrix wires inverse).
Proof.
  unfold applyMatrix_ptr. apply buffer_only_bind; [buffer_only_step|].
  intros _. apply buffer_only_bind.
  - destruct (length wires) as [|[|[|n]]]; buffer_only_step.
  - intros kernel. apply buffer_only_applyMatrix_kernel_ptr.
Qed.

Lemma buffer_only_applyMatrix matrix wires inverse :
  buffer_only (applyMatrix matrix wires inverse).
Proof.
  unfold applyMatrix. apply buffer_only_bind; [buffer_only_step|].
  intros _. apply buffer_only_applyMatrix_ptr.
Qed.

Lemma buffer_only_applyControlledMatrix_ptr matrix cw cv wires inverse :
  buffer_only (applyControlledMatrix_ptr matrix cw cv wires inverse).
Proof.
  unfold applyControlledMatrix_ptr.
  apply buffer_only_bind; [buffer_only_step|]. intros _.
  apply buffer_only_bind; [buffer_only_step|]. intros _.
  apply buffer_only_bind; [|intros kernel; buffer_only_step].
  destruct (length wires) as [|[|[|n]]]; buffer_only_step.
Qed.

(** X14: whatever the dispatcher and the kernels do, and whether the call
    returns or throws, an entry point that applies an operation, a matrix
    or a generator changes nothing of the object but the buffer: the number
    of qubits, the six kernel maps, the threading mode, the memory model
    and the random engine are as before. *)
Theorem apply_entry_points_change_only_the_buffer (opName : string)
  (kernel : KernelType) (matrix : list ComplexT)
  (controlled_wires : list nat) (controlled_values : list bool)
  (wires : list nat) (flag : bool) (params : list R) :
  buffer_only (applyOperation_kernel kernel opName wires flag params) /\
  buffer_only (applyOperation opName wires flag params) /\
  buffer_only (applyOperation_controlled opName controlled_wires
                 controlled_values wires flag params) /\
  buffer_only (applyOperation_matrix opName wires flag params matrix) /\
  buffer_only (applyOperation_controlled_matrix opName controlled_wires
                 controlled_values wires flag params matrix) /\
  buffer_only (applyGenerator_kernel kernel opName wires flag) /\
  buffer_only (applyGenerator opName wires flag) /\
  buffer_only (applyGenerator_controlled opName controlled_wires
                 controlled_values wires flag) /\
  buffer_only (applyControlledMatrix_ptr matrix controlled_wires
                 controlled_values wires flag) /\
  buffer_only (applyControlledMatrix matrix controlled_wires
                 controlled_values wires flag) /\
  buffer_only (applyMatrix_kernel_ptr kernel matrix wires flag) /\
  buffer_only (applyMatrix_kernel kernel matrix wires flag) /\
  buffer_only (applyMatrix_ptr matrix wires flag) /\
  buffer_only (applyMatrix matrix wires flag).
Proof.
  repeat split.
  - apply buffer_only_dispatch.
  - apply buffer_only_applyOperation.
  - apply buffer_only_applyOperation_controlled.
  - unfold applyOperation_matrix.
    destruct (DynamicDispatcher.hasGateOp opName);
      [apply buffer_only_applyOperation|apply buffer_only_applyMatrix].
  - unfold applyOperation_controlled_matrix.
    apply buffer_only_bind; [buffer_only_step|]. intros _.
    destruct (negb (length controlled_wires =? 0));
      [apply buffer_only_applyOperation_controlled|].
    destruct (DynamicDispatcher.hasGateOp opName);
      [apply buffer_only_applyOperation|apply buffer_only_applyMatrix].
  - apply buffer_only_dispatch.
  - unfold applyGenerator. repeat buffer_only_step.
  - unfold applyGenerator_controlled. repeat buffer_only_step.
  - apply buffer_only_applyControlledMatrix_ptr.
  - apply buffer_only_applyControlledMatrix_ptr.
  - apply buffer_only_applyMatrix_kernel_ptr.
  - unfold applyMatrix_kernel. apply buffer_only_bind; [buffer_only_step|].
    intros _. apply buffer_only_applyMatrix_kernel_ptr.
  - apply buffer_only_applyMatrix_ptr.
  - apply buffer_only_applyMatrix.
Qed.

(** X15: a name the dispatcher does not know stops a named entry point at
    the lookup: the exception of the lookup comes out, nothing has been
    dispatched and the object is as it was.  The controlled [applyOperation]
    gets to the lookup once the control lists have the same length. *)
Theorem unknown_name_stops_at_lookup (sv : StateVectorLQubit)
  (opName : string) (e : Exception) (controlled_wires : list nat)
  (controlled_values : list bool) (wires : list nat) (flag : bool)
  (params : list R) :
  (DynamicDispatcher.strToGateOp opName = inl e ->
   applyOperation opName wires flag params sv = (inl e, sv)) /\
  (DynamicDispatcher.strToControlledGateOp opName = inl e ->
   length controlled_wires = length controlled_values ->
   applyOperation_controlled opName controlled_wires controlled_values wires
     flag params sv = (inl e, sv)) /\
  (DynamicDispatcher.strToGeneratorOp opName = inl e ->
   applyGenerator opName wires flag sv = (inl e, sv)) /\
  (DynamicDispatcher.strToControlledGeneratorOp opName = inl e ->
   applyGenerator_controlled opName controlled_wires controlled_values wires
     flag sv = (inl e, sv)).
Proof.
  repeat split.
  - intros Hop. unfold applyOperation, bind, lookup_op. rewrite Hop.
    reflexivity.
  - intros Hop Hsize. apply Nat.eqb_eq in Hsize.
    unfold applyOperation_controlled, bind, PL_ABORT_IF_NOT, PL_ABORT_IF,
      lookup_op.
    rewrite Hsize, Hop. reflexivity.
  - intros Hop. unfold applyGenerator, bind, lookup_op. rewrite Hop.
    reflexivity.
  - intros Hop. unfold applyGenerator_controlled, bind, lookup_op.
    rewrite Hop. reflexivity.
Qed.

(** X16: a kernel map without an entry for the operation stops the entry
    point at [unordered_map::at]: [out_of_range] comes out, nothing has
    been dispatched and the object is as it was. *)
Theorem missing_kernel_stops_at_the_map (sv : StateVectorLQubit)
  (opName : string) (matrix : list ComplexT) (wires : list nat)
  (flag : bool) (params : list R) :
  (forall gate_op,
     DynamicDispatcher.strToGateOp opName = inr gate_op ->
     kernel_for_gates_ sv gate_op = None ->
     applyOperation opName wires flag params sv = (inl out_of_range, sv)) /\
  (forall gen_op,
     DynamicDispatcher.strToGeneratorOp opName = inr gen_op ->
     kernel_for_generators_ sv gen_op = None ->
     applyGenerator opName wires flag sv = (inl out_of_range, sv)) /\
  (wires <> [] ->
   kernel_for_matrices_ sv (sized_matrix_op (length wires)) = None ->
   applyMatrix_ptr matrix wires flag sv = (inl out_of_range, sv)) /\
  (wires <> [] ->
   length matrix = exp2 (2 * length wires) ->
   kernel_for_matrices_ sv (sized_matrix_op (length wires)) = None ->
   applyMatrix matrix wires flag sv = (inl out_of_range, sv)).
Proof.
  assert (Hptr : wires <> [] ->
    kernel_for_matrices_ sv (sized_matrix_op (length wires)) = None ->
    applyMatrix_ptr matrix wires flag sv = (inl out_of_range, sv)).
  { intros Hw Hk. unfold applyMatrix_ptr, bind at 1, PL_ABORT_IF.
    destruct wires as [|w1 [|w2 [|w3 wires]]]; [contradiction| | |];
      cbn in Hk |- *; unfold bind, getKernelForMatrix, at_;
      rewrite Hk; reflexivity. }
  repeat split.
  - intros gate_op Hop Hk.
    unfold applyOperation, bind, lookup_op, getKernelForGate, at_.
    rewrite Hop. unfold ret. rewrite Hk. reflexivity.
  - intros gen_op Hop Hk.
    unfold applyGenerator, bind, lookup_op, getKernelForGenerator, at_.
    rewrite Hop. unfold ret. rewrite Hk. reflexivity.
  - exact Hptr.
  - intros Hw Hsize Hk. apply Nat.eqb_eq in Hsize.
    unfold applyMatrix, bind at 1, PL_ABORT_IF. rewrite Hsize.
    cbn [negb ret]. apply Hptr; assumption.
Qed.

(** X17: [applyOperation] with a matrix and empty control lists is the
    uncontrolled [applyOperation] with a matrix; for a name the dispatcher
    has as a gate, the matrix is never looked at, whatever its size. *)
Theorem applyOperation_matrix_overloads (sv : StateVectorLQubit)
  (opName : string) (wires : list nat) (inverse : bool) (params : list R)
  (matrix matrix' : list ComplexT) :
  applyOperation_controlled_matrix opName [] [] wires inverse params matrix
    sv
  = applyOperation_matrix opName wires inverse params matrix sv /\
  (DynamicDispatcher.hasGateOp opName = true ->
   applyOperation_matrix opName wires inverse params matrix sv
   = applyOperation_matrix opName wires inverse params matrix' sv /\
   applyOperation_matrix opName wires inverse params matrix sv
   = applyOperation opName wires inverse params sv).
Proof.
  split; [reflexivity|].
  intros Hhas. unfold applyOperation_matrix. rewrite Hhas.
  split; reflexivity.
Qed.

(** X18: for a name the dispatcher does not have as a gate, the
    uncontrolled [applyOperation] with a matrix falls back to the matrix:
    a matrix whose size is not [2 ^ (2 * |wires|)] is rejected with the
    object unchanged, and a matrix of that size for a non-empty wire list
    is applied by the kernel the matrix map gives for the number of wires
    (one: SingleQubitOp, two: TwoQubitOp, three or more: MultiQubitOp). *)
Theorem applyOperation_matrix_falls_back (sv : StateVectorLQubit)
  (opName : string) (wires : list nat) (inverse : bool) (params : list R)
  (matrix : list ComplexT) :
  DynamicDispatcher.hasGateOp opName = false ->
  (sized_matrix_op 1 = SingleQubitOp /\
   sized_matrix_op 2 = TwoQubitOp /\
   forall n_wires, 3 <= n_wires -> sized_matrix_op n_wires = MultiQubitOp) /\
  (length matrix <> exp2 (2 * length wires) ->
   applyOperation_matrix opName wires inverse params matrix sv
   = (inl (LightningException msg_matrix_size), sv)) /\
  (length matrix = exp2 (2 * length wires) ->
   wires <> [] ->
   applyOperation_matrix opName wires inverse params matrix sv
   = bind (getKernelForMatrix (sized_matrix_op (length wires)))
          (fun kernel => dispatch (fun arr nq =>
             DynamicDispatcher.applyMatrix kernel arr nq matrix wires
               inverse)) sv).
Proof.
  intros Hhas. unfold applyOperation_matrix. rewrite Hhas.
  split; [|split].
  - repeat split. intros [|[|[|n]]] Hn; try lia. reflexivity.
  - intros Hsize. apply Nat.eqb_neq in Hsize.
    unfold applyMatrix, bind, PL_ABORT_IF. rewrite Hsize. reflexivity.
  - intros Hsize Hw. apply Nat.eqb_eq in Hsize.
    unfold applyMatrix, bind at 1, PL_ABORT_IF. rewrite Hsize.
    cbn [negb ret].
    unfold applyMatrix_ptr, bind at 1, PL_ABORT_IF.
    destruct wires as [|w1 [|w2 [|w3 wires]]]; [contradiction| | |];
      cbn [length Nat.eqb ret sized_matrix_op];
      unfold bind, applyMatrix_kernel_ptr, PL_ABORT_IF;
      cbn [length Nat.eqb ret];
      destruct (getKernelForMatrix _ sv) as [[e|kernel] sv1];
      reflexivity.
Qed.

(** X19: the overloads that select the kernel from the maps are the
    explicit-kernel overloads with the selected kernel: [applyMatrix] for a
    non-empty wire list and the kernel the matrix map holds for the number
    of wires, [applyGenerator] for a known name and the kernel the
    generator map holds for it. *)
Theorem selected_kernel_is_explicit_kernel (sv : StateVectorLQubit)
  (opName : string) (wires : list nat) (flag : bool)
  (matrix : list ComplexT) (kernel : KernelType) :
  (wires <> [] ->
   kernel_for_matrices_ sv (sized_matrix_op (length wires)) = Some kernel ->
   applyMatrix matrix wires flag sv
   = applyMatrix_kernel kernel matrix wires flag sv) /\
  (forall gen_op,
     DynamicDispatcher.strToGeneratorOp opName = inr gen_op ->
     kernel_for_generators_ sv gen_op = Some kernel ->
     applyGenerator opName wires flag sv
     = applyGenerator_kernel kernel opName wires flag sv).
Proof.
  split.
  - intros Hw Hk.
    unfold applyMatrix, applyMatrix_kernel, bind, PL_ABORT_IF.
    destruct (negb (length matrix =? exp2 (2 * length wires)));
      [reflexivity|].
    cbn [ret]. unfold applyMatrix_ptr, bind at 1, PL_ABORT_IF.
    destruct wires as [|w1 [|w2 [|w3 wires]]]; [contradiction| | |];
      cbn [length Nat.eqb ret sized_matrix_op] in Hk |- *;
      unfold bind at 1, getKernelForMatrix, at_; rewrite Hk; reflexivity.
  - intros gen_op Hop Hk.
    unfold applyGenerator, applyGenerator_kernel, bind, lookup_op,
      getKernelForGenerator, at_.
    rewrite Hop. unfold ret. rewrite Hk. reflexivity.
Qed.

End DispatchExtras.

(** * Measurements over lists of operations *)

Section ListExtras.
Context {op_type : Type}
        (measure_one : op_type -> list nat -> Exception + R).

Lemma collect_snoc (pairs : list (op_type * list nat)) (op : op_type)
  (wires : list nat) :
  collect measure_one (pairs ++ [(op, wires)])
  = match collect measure_one pairs with
    | inl e => inl e
    | inr values =>
        match measure_one op wires with
        | inl e => inl e
        | inr value => inr (values ++ [value])
        end
    end.
Proof.
  induction pairs as [|[op' wires'] pairs IH]; simpl.
  - destruct (measure_one op wires); reflexivity.
  - destruct (measure_one op' wires') as [e|value']; [reflexivity|].
    rewrite IH. destruct (collect measure_one pairs) as [e|values];
      [reflexivity|].
    destruct (measure_one op wires); reflexivity.
Qed.

(** The loop of the list overloads, run over the first [n] operations. *)
Lemma measure_loop_collect (operations_list : list op_type)
  (wires_list : list (list nat)) (n : nat) :
  n <= length operations_list ->
  length operations_list = length wires_list ->
  for_loop n (fun index acc =>
    match acc with
    | inl e => inl e
    | inr value_list =>
        match operations_list !! index, wires_list !! index with
        | Some op, Some wires =>
            match measure_one op wires with
            | inl e => inl e
            | inr value => inr (value_list ++ [value])
            end
        | _, _ => acc
        end
    end) (inr [])
  = collect measure_one (take n (zip operations_list wires_list)).
Proof.
  intros Hn Hlen. unfold for_loop. induction n as [|n IH].
  - reflexivity.
  - rewrite seq_S, fold_left_app, IH by lia. cbn [fold_left Nat.add].
    destruct (lookup_lt_is_Some_2 operations_list n) as [op Hop]; [lia|].
    destruct (lookup_lt_is_Some_2 wires_list n) as [wires Hwires]; [lia|].
    rewrite Hop, Hwires.
    assert (Hzip : zip operations_list wires_list !! n = Some (op, wires)).
    { rewrite lookup_zip_with, Hop. simpl. rewrite Hwires. reflexivity. }
    rewrite (take_S_r _ _ _ Hzip), collect_snoc. reflexivity.
Qed.

Lemma collect_values (pairs : list (op_type * list nat)) (values : list R) :
  collect measure_one pairs = inr values ->
  length values = length pairs /\
  forall i op wires, pairs !! i = Some (op, wires) ->
    exists value, values !! i = Some value /\
                  measure_one op wires = inr value.
Proof.
  revert values. induction pairs as [|[op' wires'] pairs IH];
    intros values Hc; simpl in Hc.
  - injection Hc as <-. split; [reflexivity|]. intros i op wires Hi.
    discriminate Hi.
  - destruct (measure_one op' wires') as [e|value'] eqn:Hone;
      [discriminate|].
    destruct (collect measure_one pairs) as [e|rest] eqn:Hrest;
      [discriminate|].
    injection Hc as <-. destruct (IH rest eq_refl) as [Hlen Hnth].
    split; [simpl; rewrite Hlen; reflexivity|].
    intros [|i] op wires Hi; simpl in Hi.
    + injection Hi as <- <-. exists value'. split; [reflexivity|exact Hone].
    + apply Hnth. exact Hi.
Qed.

Lemma collect_succeeds (pairs : list (op_type * list nat)) :
  (forall i op wires, pairs !! i = Some (op, wires) ->
     exists value, measure_one op wires = inr value) ->
  exists values, collect measure_one pairs = inr values.
Proof.
  induction pairs as [|[op' wires'] pairs IH]; intros Hall; simpl.
  - eexists. reflexivity.
  - destruct (Hall 0 op' wires' eq_refl) as [value' Hone]. rewrite Hone.
    destruct IH as [rest Hrest].
    { intros i op wires Hi. apply (Hall (S i)). exact Hi. }
    rewrite Hrest. eexists. reflexivity.
Qed.

Lemma measure_each_collect (operations_list : list op_type)
  (wires_list : list (list nat)) :
  length operations_list = length wires_list ->
  MeasurementsMPI.measure_each measure_one operations_list wires_list
  = collect measure_one (zip operations_list wires_list).
Proof.
  intros Hlen. unfold MeasurementsMPI.measure_each.
  rewrite (proj2 (Nat.eqb_eq _ _) Hlen). cbn [negb].
  rewrite measure_loop_collect by lia.
  rewrite take_ge; [reflexivity|].
  rewrite length_zip_with. lia.
Qed.

(** X22: the list overloads of [expval] and [var] reject lists of different
    lengths before they measure anything.  For lists of the same length, a
    returned list has one value per operation, the value at each index is
    the one the single-operation overload returns for the operation and
    the wires at that index, and the call returns as soon as every
    single-operation call does. *)
Theorem list_overloads_measure_each_operation
  (operations_list : list op_type) (wires_list : list (list nat)) :
  (length operations_list <> length wires_list ->
   MeasurementsMPI.expval_list measure_one operations_list wires_list
   = inl (LightningException MeasurementsMPI.msg_lengths)) /\
  (forall values,
     MeasurementsMPI.expval_list measure_one operations_list wires_list
     = inr values ->
     length values = length operations_list /\
     forall i op wires,
       operations_list !! i = Some op -> wires_list !! i = Some wires ->
       exists value, values !! i = Some value /\
                     measure_one op wires = inr value) /\
  (length operations_list = length wires_list ->
   (forall i op wires,
      operations_list !! i = Some op -> wires_list !! i = Some wires ->
      exists value, measure_one op wires = inr value) ->
   exists values,
     MeasurementsMPI.expval_list measure_one operations_list wires_list
     = inr values).
Proof.
  unfold MeasurementsMPI.expval_list. split; [|split].
  - intros Hlen. unfold MeasurementsMPI.measure_each.
    rewrite (proj2 (Nat.eqb_neq _ _) Hlen). reflexivity.
  - intros values Hv.
    assert (Hlen : length operations_list = length wires_list).
    { unfold MeasurementsMPI.measure_each in Hv.
      destruct (length operations_list =? length wires_list) eqn:Heq;
        [apply Nat.eqb_eq; exact Heq|discriminate Hv]. }
    rewrite measure_each_collect in Hv by exact Hlen.
    destruct (collect_values _ _ Hv) as [Hl Hnth]. split.
    + rewrite Hl, length_zip_with. lia.
    + intros i op wires Hop Hwires. apply Hnth.
      rewrite lookup_zip_with, Hop. simpl. rewrite Hwires. reflexivity.
  - intros Hlen Hall. rewrite measure_each_collect by exact Hlen.
    apply collect_succeeds. intros i op wires Hi.
    rewrite lookup_zip_with in Hi.
    destruct (operations_list !! i) as [op'|] eqn:Hop; [|discriminate].
    simpl in Hi.
    destruct (wires_list !! i) as [wires'|] eqn:Hwires; [|discriminate].
    injection Hi as <- <-. apply (Hall i); assumption.
Qed.

(** X23: a list overload stops at the first operation whose measurement
    throws and hands that exception on: the operations before it were
    measured, the ones after it are not. *)
Theorem list_overloads_stop_at_first_exception
  (operations_list : list op_type) (wires_list : list (list nat))
  (i : nat) (op : op_type) (wires : list nat) (e : Exception) :
  length operations_list = length wires_list ->
  operations_list !! i = Some op ->
  wires_list !! i = Some wires ->
  measure_one op wires = inl e ->
  (forall j op' wires', j < i ->
     operations_list !! j = Some op' -> wires_list !! j = Some wires' ->
     exists value, measure_one op' wires' = inr value) ->
  MeasurementsMPI.var_list measure_one operations_list wires_list = inl e.
Proof.
  intros Hlen Hop Hwires He Hbefore. unfold MeasurementsMPI.var_list.
  rewrite measure_each_collect by exact Hlen.
  assert (Hzip : zip operations_list wires_list !! i = Some (op, wires)).
  { rewrite lookup_zip_with, Hop. simpl. rewrite Hwires. reflexivity. }
  assert (Hbefore' : forall j op' wires',
            j < i -> zip operations_list wires_list !! j = Some (op', wires')
            -> exists value, measure_one op' wires' = inr value).
  { intros j op' wires' Hj Hz. rewrite lookup_zip_with in Hz.
    destruct (operations_list !! j) as [o|] eqn:Ho; [|discriminate].
    simpl in Hz.
    destruct (wires_list !! j) as [w|] eqn:Hw; [|discriminate].
    injection Hz as <- <-. apply (Hbefore j); assumption. }
  clear Hop Hwires Hbefore Hlen.
  revert i Hzip Hbefore'.
  generalize (zip operations_list wires_list) as pairs.
  induction pairs as [|[op' wires'] pairs IH]; intros i Hzip Hbefore.
  - discriminate Hzip.
  - destruct i as [|i]; simpl in Hzip |- *.
    + injection Hzip as -> ->. rewrite He. reflexivity.
    + destruct (Hbefore 0 op' wires') as [value Hone];
        [lia|reflexivity|].
      rewrite Hone.
      rewrite (IH i Hzip); [reflexivity|].
      intros j o w Hj Hz. apply (Hbefore (S j)); [lia|exact Hz].
Qed.

End ListExtras.

(** * The further properties on concrete inputs *)

Section ExtraRuns.
#[local] Existing Instance Demo.ops.
#[local] Existing Instance Demo.dispatcher.
#[local] Existing Instance Demo.engine.
#[local] Existing Instance Demo.double_precision.

Lemma wire_in_zero1 : 0 < num_qubits_ Demo.zero1.
Proof. simpl. lia. Qed.

(** Witness of X4. *)
Lemma collapse_clears_other_branch_witness :
  length (data (snd (collapse 0 false Demo.zero1))) = 2 /\
  forall i, wire_bit 1 0 i <> false ->
            nth i (data (snd (collapse 0 false Demo.zero1))) Czero = Czero.
Proof.
  exact (collapse_clears_other_branch Demo.zero1 0 false wire_in_zero1
           eq_refl).
Defined.

(** Witness of X7. *)
Lemma measure_reset_only_acts_on_one_witness :
  measure 0 (-1) true Demo.zero1 = measure 0 (-1) false Demo.zero1.
Proof.
  exact (measure_reset_only_acts_on_one Demo.zero1 0 (-1) draw_of_zero1).
Defined.

(** Witness of X9. *)
Lemma measure_keeps_shape_witness :
  let sv' := snd (measure 0 1 false Demo.zero1) in
  length (data sv') = 2 ^ num_qubits_ sv' /\
  sv' = set_data (data sv') (set_rng (rng sv') Demo.zero1).
Proof.
  exact (measure_keeps_shape Demo.zero1 0 1 wire_in_zero1 eq_refl).
Defined.

(** Witness of X10. *)
Lemma applyMidMeasureMP_rejects_witness :
  applyMidMeasureMP [0; 1] [] false Demo.zero2
  = (inl (LightningException msg_single_wire), Demo.zero2) /\
  applyMidMeasureMP [0] [0; 1] false Demo.zero2
  = (inl (LightningException msg_one_postselect), Demo.zero2).
Proof.
  split.
  - apply (proj1 (applyMidMeasureMP_rejects Demo.zero2 [0; 1] [] false)).
    simpl. lia.
  - apply (proj2 (applyMidMeasureMP_rejects Demo.zero2 [0] [0; 1] false));
      simpl; lia.
Defined.

(** Witness of X11. *)
Lemma applyMidMeasureMP_is_measure_witness :
  applyMidMeasureMP [0] [1] false Demo.zero1 = measure 0 1 false Demo.zero1.
Proof.
  apply (proj2 (applyMidMeasureMP_is_measure Demo.zero1 0 false) 1).
  simpl. lia.
Defined.

(** Witness of X13. *)
Lemma probs_of_basis_state_witness :
  probs 0 Samples.one_zero = (inr [0; 1]%R, Samples.one_zero) /\
  probs 1 Samples.one_zero = (inr [1; 0]%R, Samples.one_zero).
Proof.
  split.
  - apply (probs_of_basis_state Samples.one_zero 0 2);
      [simpl; lia|simpl; lia|reflexivity].
  - apply (probs_of_basis_state Samples.one_zero 1 2);
      [simpl; lia|simpl; lia|reflexivity].
Defined.

(** Witness of X15. *)
Lemma unknown_name_stops_at_lookup_witness :
  applyOperation "Toffoli" [0] false [] Demo.zero1
  = (inl out_of_range, Demo.zero1) /\
  applyGenerator "CRX" [0] false Demo.zero1
  = (inl out_of_range, Demo.zero1).
Proof.
  destruct (unknown_name_stops_at_lookup Demo.zero1 "Toffoli" out_of_range
              [] [] [0] false []) as (Hgate & _).
  destruct (unknown_name_stops_at_lookup Demo.zero1 "CRX" out_of_range
              [] [] [0] false []) as (_ & _ & Hgen & _).
  split; [apply Hgate|apply Hgen]; reflexivity.
Defined.

(** Witness of X16. *)
Lemma missing_kernel_stops_at_the_map_witness :
  applyOperation "PauliX" [0] false [] Samples.bare
  = (inl out_of_range, Samples.bare) /\
  applyMatrix Demo.identity1 [0] false Samples.bare
  = (inl out_of_range, Samples.bare).
Proof.
  destruct (missing_kernel_stops_at_the_map Samples.bare "PauliX"
              Demo.identity1 [0] false []) as (Hgate & _ & _ & Hmatrix).
  split.
  - apply (Hgate ("PauliX"%string : @GateOperation Demo.ops));
      reflexivity.
  - apply Hmatrix; [discriminate|reflexivity|reflexivity].
Defined.

(** Witness of X17. *)
Lemma applyOperation_matrix_overloads_witness :
  applyOperation_matrix "PauliX" [0] false [] [] Demo.zero1
  = applyOperation "PauliX" [0] false [] Demo.zero1.
Proof.
  apply (proj2 (applyOperation_matrix_overloads Demo.zero1 "PauliX" [0]
                  false [] [] [])).
  reflexivity.
Defined.

(** Witness of X18. *)
Lemma applyOperation_matrix_falls_back_witness :
  applyOperation_matrix "QubitUnitary" [0] false [] [Cone] Demo.zero1
  = (inl (LightningException msg_matrix_size), Demo.zero1) /\
  applyOperation_matrix "QubitUnitary" [0] false [] Demo.identity1 Demo.zero1
  = bind (getKernelForMatrix (sized_matrix_op 1))
         (fun kernel => dispatch (fun arr nq =>
            DynamicDispatcher.applyMatrix kernel arr nq Demo.identity1 [0]
              false)) Demo.zero1.
Proof.
  assert (Hno : DynamicDispatcher.hasGateOp "QubitUnitary" = false)
    by reflexivity.
  split.
  - apply (applyOperation_matrix_falls_back Demo.zero1 "QubitUnitary" [0]
             false [] [Cone] Hno).
    discriminate.
  - apply (applyOperation_matrix_falls_back Demo.zero1 "QubitUnitary" [0]
             false [] Demo.identity1 Hno);
      [reflexivity|discriminate].
Defined.

(** Witness of X19. *)
Lemma selected_kernel_is_explicit_kernel_witness :
  applyMatrix Demo.identity1 [0] false Demo.zero1
  = applyMatrix_kernel Demo.kernel Demo.identity1 [0] false Demo.zero1 /\
  applyGenerator "RX" [0] false Demo.zero1
  = applyGenerator_kernel Demo.kernel "RX" [0] false Demo.zero1.
Proof.
  destruct (selected_kernel_is_explicit_kernel Demo.zero1 "RX" [0] false
              Demo.identity1 Demo.kernel) as [Hmatrix Hgen].
  split.
  - apply Hmatrix; [discriminate|reflexivity].
  - apply (Hgen ("RX"%string : @GeneratorOperation Demo.ops)); reflexivity.
Defined.

(** Witness of X22. *)
Lemma list_overloads_measure_each_operation_witness :
  MeasurementsMPI.expval_list Samples.reading ["PauliX"; "PauliZ"]%string
    [[0]]
  = inl (LightningException MeasurementsMPI.msg_lengths) /\
  exists values,
    MeasurementsMPI.expval_list Samples.reading ["PauliX"; "PauliZ"]%string
      [[0]; [0; 1]] = inr values.
Proof.
  split.
  - apply (list_overloads_measure_each_operation Samples.reading
             ["PauliX"; "PauliZ"]%string [[0]]).
    discriminate.
  - apply (list_overloads_measure_each_operation Samples.reading
             ["PauliX"; "PauliZ"]%string [[0]; [0; 1]]); [reflexivity|].
    intros [|[|i]] op wires Hop Hwires; try discriminate;
      injection Hop as <-; eexists; reflexivity.
Defined.

(** Witness of X23. *)
Lemma list_overloads_stop_at_first_exception_witness :
  MeasurementsMPI.var_list Samples.reading
    ["PauliX"; "broken"; "PauliZ"]%string [[0]; [1]; [2]]
  = inl out_of_range.
Proof.
  apply (list_overloads_stop_at_first_exception Samples.reading
           ["PauliX"; "broken"; "PauliZ"]%string [[0]; [1]; [2]] 1
           "broken"%string [1] out_of_range);
    try reflexivity.
  intros [|j] op wires Hj Hop Hwires; [|lia].
  injection Hop as <-. eexists. reflexivity.
Defined.

End ExtraRuns.

(** * Sequences of measurement calls *)

Section SequenceExtras.
Context `{Ops : Operations} `{Disp : !DynamicDispatcher.t}
        `{Rng : RandomEngine} `{Lim : NumericLimits}.

Lemma nth_replicate_zero (len i : nat) :
  nth i (replicate len Czero) Czero = Czero.
Proof.
  rewrite nth_lookup.
  destruct (replicate len Czero !! i) as [z|] eqn:Hz; [|reflexivity].
  apply lookup_replicate in Hz as [-> _]. reflexivity.
Qed.

Lemma weight_null (select : nat -> bool) (len : nat) :
  weight select (replicate len Czero) = 0%R.
Proof.
  rewrite (weight_scaled select _ (replicate len Czero) 0 eq_refl); [ring|].
  intros i _ _. rewrite nth_replicate_zero, Cnorm_Czero. ring.
Qed.

Lemma squaredNorm_null (len : nat) :
  squaredNorm (replicate len Czero) (length (replicate len Czero)) = 0%R.
Proof.
  rewrite (squaredNorm_split (fun _ => true)), !weight_null. ring.
Qed.

Lemma norm_step_null (len : nat) :
  (0 <= epsilon)%R ->
  norm_step (replicate len Czero) = replicate len Czero.
Proof.
  intros Heps. unfold norm_step. rewrite squaredNorm_null, sqrt_0.
  destruct (Rgt_dec 0 (epsilon * 100)) as [Hgt|_]; [lra|reflexivity].
Qed.

(** X24: after a postselection failure on a wire of the register the
    buffer holds no amplitude, and [probs] then returns (0, 1) for every
    wire of the register: the second probability is computed as one minus
    the first, not summed. *)
Theorem probs_after_postselect_mismatch (sv : StateVectorLQubit)
  (wire wire' : nat) (postselect : Z) (reset : bool) :
  wire < num_qubits_ sv ->
  wire' < num_qubits_ sv ->
  length (data sv) = 2 ^ num_qubits_ sv ->
  postselect <> (-1)%Z ->
  postselect <> Z.b2z (fst (draw_of wire sv)) ->
  fst (bind (measure wire postselect reset) (fun _ => probs wire') sv)
  = inr [0; 1]%R.
Proof.
  intros _ Hw Hlen Hps Hne.
  rewrite (bind_returns _ _ _ _ _
             (measure_mismatch sv wire postselect reset Hps Hne)).
  rewrite probs_weight; cbn [num_qubits_ data set_data set_rng];
    [|exact Hw|rewrite length_replicate; exact Hlen].
  rewrite weight_null. cbn [fst].
  replace (1 - 0)%R with 1%R by ring. reflexivity.
Qed.

(** X25: collapsing a wire to one branch and then to the other leaves no
    amplitude at all. *)
Theorem collapse_to_both_branches_annihilates (sv : StateVectorLQubit)
  (wire : nat) (branch : bool) :
  wire < num_qubits_ sv ->
  length (data sv) = 2 ^ num_qubits_ sv ->
  (0 <= epsilon)%R ->
  bind (collapse wire branch) (fun _ => collapse wire (negb branch)) sv
  = (inr tt, set_data (replicate (2 ^ num_qubits_ sv) Czero) sv).
Proof.
  intros Hw Hlen Heps.
  rewrite (bind_returns _ _ _ _ _ (collapse_norm_step sv wire branch Hw Hlen)).
  set (n := num_qubits_ sv) in *.
  set (arr := norm_step (keep_branch n wire branch (data sv))).
  assert (Hlen' : length arr = 2 ^ n).
  { unfold arr. rewrite length_norm_step, length_keep_branch. exact Hlen. }
  rewrite collapse_norm_step; cbn [num_qubits_ data set_data]; fold n;
    [|exact Hw|exact Hlen'].
  assert (Hnull : keep_branch n wire (negb branch) arr
                  = replicate (2 ^ n) Czero).
  { apply (nth_ext _ _ Czero Czero).
    - rewrite length_keep_branch, length_replicate. exact Hlen'.
    - intros i _. rewrite nth_keep_branch, nth_replicate_zero.
      destruct (Bool.eqb (wire_bit n wire i) (negb branch)) eqn:Heq;
        [|reflexivity].
      apply Bool.eqb_prop in Heq. unfold arr.
      apply collapsed_other_branch_zero. rewrite Heq.
      destruct branch; discriminate. }
  rewrite Hnull, norm_step_null by exact Heps. reflexivity.
Qed.

(** X26: when the sample is 1 and a reset is asked for, [measure] collapses
    the wire to branch 1 and then applies the gate PauliX to the measured
    wire through the kernel map for gates: it returns 1 if that call
    returns, and hands on its exception otherwise, with the object as the
    gate call left it. *)
Theorem measure_with_reset_applies_PauliX (sv : StateVectorLQubit)
  (wire : nat) (postselect : Z) :
  fst (draw_of wire sv) = true ->
  (postselect = (-1)%Z \/ postselect = 1%Z) ->
  let collapsed :=
    snd (collapse wire true (set_rng (snd (draw_of wire sv)) sv)) in
  measure wire postselect true sv
  = match applyOperation "PauliX" [wire] false [] collapsed with
    | (inl e, sv') => (inl e, sv')
    | (inr _, sv') => (inr 1%Z, sv')
    end.
Proof.
  intros Hone Hps collapsed. unfold measure.
  rewrite (bind_returns _ _ _ _ _ (probs_returns wire sv)).
  cbn [nth].
  rewrite (bind_returns _ _ _ _ _ (random_sample_draws wire sv)).
  rewrite Hone. cbn [Z.b2z].
  assert (Hcond : negb (postselect =? -1)%Z && negb (postselect =? 1)%Z
                  = false).
  { destruct Hps as [->| ->]; reflexivity. }
  rewrite Hcond.
  change (negb (1 =? 0)%Z) with true.
  change (true && (1 =? 1)%Z) with true. cbv iota.
  pose proof (collapse_returns (set_rng (snd (draw_of wire sv)) sv) wire true)
    as Hc.
  rewrite (bind_returns _ _ _ _ _ Hc). fold collapsed.
  unfold bind at 1.
  destruct (applyOperation "PauliX" [wire] false [] collapsed)
    as [[e|u] sv']; reflexivity.
Qed.

End SequenceExtras.

Section SequenceRuns.
#[local] Existing Instance Demo.ops.
#[local] Existing Instance Demo.dispatcher.
#[local] Existing Instance Demo.engine.
#[local] Existing Instance Demo.double_precision.

Lemma prob_0_of_one1 : prob_0_of 0 Samples.one1 = 0%R.
Proof. unfold prob_0_of, probs, for_loop, Cnorm. simpl. lra. Qed.

Lemma draw_of_one1 : fst (draw_of 0 Samples.one1) = true.
Proof.
  unfold draw_of. rewrite prob_0_of_one1. simpl.
  destruct (Rlt_dec _ _) as [Hlt|_]; [|reflexivity].
  exfalso. lra.
Qed.

(** Witness of X6. *)
Lemma measure_returns_sample_or_marker_witness :
  let sample := Z.b2z (fst (draw_of 0 Samples.one1)) in
  exists value,
    fst (measure 0 (-1) false Samples.one1) = inr value /\
    (value = (-1)%Z \/ value = 0%Z \/ value = 1%Z) /\
    (value = (-1)%Z <-> (-1)%Z <> (-1)%Z /\ (-1)%Z <> sample) /\
    (value <> (-1)%Z -> value = sample).
Proof.
  apply (measure_returns_sample_or_marker Samples.one1 0 (-1)).
  - simpl. lia.
  - reflexivity.
Defined.

(** Witness of X8. *)
Lemma measured_one_then_probs_certain_witness :
  fst (bind (measure 0 (-1) false) (fun _ => probs 0) Samples.one1)
  = inr [0; 1]%R.
Proof.
  apply (measured_one_then_probs_certain Samples.one1 0 (-1)).
  - simpl. lia.
  - reflexivity.
  - exact draw_of_one1.
  - left. reflexivity.
Defined.

(** Witness of X24. *)
Lemma probs_after_postselect_mismatch_witness :
  fst (bind (measure 0 1 false) (fun _ => probs 0) Demo.zero1)
  = inr [0; 1]%R.
Proof.
  apply (probs_after_postselect_mismatch Demo.zero1 0 0 1 false).
  - simpl. lia.
  - simpl. lia.
  - reflexivity.
  - discriminate.
  - rewrite draw_of_zero1. discriminate.
Defined.

(** Witness of X25. *)
Lemma collapse_to_both_branches_annihilates_witness :
  bind (collapse 0 false) (fun _ => collapse 0 true) Demo.zero1
  = (inr tt, set_data [Czero; Czero] Demo.zero1).
Proof.
  apply (collapse_to_both_branches_annihilates Demo.zero1 0 false).
  - simpl. lia.
  - reflexivity.
  - pose proof epsilon_double_bounds. simpl. lra.
Defined.

(** Witness of X26. *)
Lemma measure_with_reset_applies_PauliX_witness :
  measure 0 (-1) true Samples.one1
  = match applyOperation "PauliX" [0] false []
            (snd (collapse 0 true
                    (set_rng (snd (draw_of 0 Samples.one1)) Samples.one1)))
    with
    | (inl e, sv') => (inl e, sv')
    | (inr _, sv') => (inr 1%Z, sv')
    end.
Proof.
  apply (measure_with_reset_applies_PauliX Samples.one1 0 (-1)).
  - exact draw_of_one1.
  - left. reflexivity.
Defined.

End SequenceRuns.
